(** * hera: [hera generate yaml] -- src/hera/_cli/generate/yaml.py

    A shallow embedding of the command's three functions, [expand_paths],
    [load_workflows_from_module] and [generate_yaml], over a model of what
    they touch: pure paths ([pathlib]), a directory tree ([os.walk],
    [os.makedirs], [Path.write_text]), the standard output stream and
    Python exceptions. *)

From Stdlib Require Import List String Ascii Bool Arith NArith Lia.
From Stdlib Require Import Sorting.Sorted Sorting.Permutation Sorting.Mergesort.
Import ListNotations.
Set Warnings "-register-all".
Local Open Scope string_scope.
Local Open Scope list_scope.

(** ** Exceptions *)

(** The exceptions the command can end with.  [Exception] stands for
    whatever a loaded module raises while it is executed. *)
Inductive exn : Type :=
| AssertionError
| BadParameter (message : string)
| IndexError
| ValueError
| RuntimeError
| FileNotFoundError
| NotADirectoryError
| IsADirectoryError
| FileExistsError
| Exception (what : string).

Inductive result (A : Type) : Type :=
| Ok (a : A)
| Raise (e : exn).
Arguments Ok {A} a.
Arguments Raise {A} e.

Definition rbind {A B} (r : result A) (k : A -> result B) : result B :=
  match r with
  | Ok a => k a
  | Raise e => Raise e
  end.

(** ** Pure paths ([pathlib.PurePath]) *)

Module Pathlib.

(** A path is the list of its parts; the file name is the last part.
    Parts are single names: they hold no separator and are neither [.]
    nor [..]. *)
Definition path : Type := list string.

(** [Path.name] *)
Definition name (p : path) : string := last p "".

(** [p / child] and [Path(os.path.join(p, child))], for a file name
    [child]. *)
Definition joinpath (p : path) (child : string) : path := p ++ [child].

(** [str.rfind] of one character. *)
Fixpoint rfind (c : ascii) (s : string) : option nat :=
  match s with
  | EmptyString => None
  | String a s' =>
      match rfind c s' with
      | Some i => Some (S i)
      | None => if Ascii.eqb a c then Some 0 else None
      end
  end.

(** [PurePath.suffix] of a name: from the last dot on, unless that dot
    is the first or the last character of the name. *)
Definition name_suffix (nm : string) : string :=
  match rfind "." nm with
  | Some i =>
      if ((0 <? i) && (i <? String.length nm - 1))%nat
      then substring i (String.length nm - i) nm
      else ""
  | None => ""
  end.

(** [Path.suffix] *)
Definition suffix (p : path) : string := name_suffix (name p).

(** [PurePath.stem] of a name: the name without its suffix. *)
Definition name_stem (nm : string) : string :=
  substring 0 (String.length nm - String.length (name_suffix nm)) nm.

(** [Path.stem] *)
Definition stem (p : path) : string := name_stem (name p).

(** [Path.with_suffix]; it raises on a path with an empty name.  The
    new suffix is checked by pathlib too (a dot first, no separator),
    which [".yaml"] passes. *)
Definition with_suffix (p : path) (sfx : string) : result path :=
  if (name p =? "")%string then Raise ValueError
  else Ok (removelast p ++ [String.append (stem p) sfx]).

(** The order [sorted] uses on paths: part by part, each part by code
    points. *)
Fixpoint path_leb (p q : path) : bool :=
  match p, q with
  | [], _ => true
  | _ :: _, [] => false
  | a :: p', b :: q' =>
      match String.compare a b with
      | Lt => true
      | Gt => false
      | Eq => path_leb p' q'
      end
  end.

(** [q] is [p] or one of the directories above it. *)
Fixpoint is_prefix (q p : path) : bool :=
  match q, p with
  | [], _ => true
  | _ :: _, [] => false
  | c :: q', d :: p' => (c =? d)%string && is_prefix q' p'
  end.

Definition path_eq_dec : forall p q : path, {p = q} + {p <> q} :=
  list_eq_dec string_dec.

End Pathlib.
Export Pathlib.

Module PathOrder <: Orders.TotalLeBool.
Definition t := path.
Definition leb := path_leb.
Lemma leb_total : forall p q, leb p q = true \/ leb q p = true.
Proof.
  unfold leb. induction p as [|a p IH]; intros [|b q]; simpl; auto.
  rewrite (String.compare_antisym b a).
  destruct (String.compare a b); simpl; auto.
Qed.
End PathOrder.

Module PathSort := Mergesort.Sort PathOrder.

(** [sorted(paths)] *)
Definition sorted (paths : list path) : list path := PathSort.sort paths.

(** ** The file system *)

Module Fs.

(** A directory tree of regular files and directories (no symbolic
    links, no permissions).  A directory lists its entries in the order
    [os.scandir] reports them.  The root of the tree is where paths are
    resolved from: the working directory of the command. *)
Inductive node : Type :=
| File (content : string)
| Dir (entries : list (string * node)).

Fixpoint get (c : string) (es : list (string * node)) : option node :=
  match es with
  | [] => None
  | (c', n) :: es' => if (c' =? c)%string then Some n else get c es'
  end.

(** Replace the entry called [c], or add it after the others. *)
Fixpoint set (c : string) (n : node) (es : list (string * node))
  : list (string * node) :=
  match es with
  | [] => [(c, n)]
  | (c', n') :: es' =>
      if (c' =? c)%string then (c, n) :: es' else (c', n') :: set c n es'
  end.

(** Resolve a path from the root of the tree. *)
Fixpoint lookup (fs : node) (p : path) : option node :=
  match p with
  | [] => Some fs
  | c :: p' =>
      match fs with
      | File _ => None
      | Dir es =>
          match get c es with
          | Some child => lookup child p'
          | None => None
          end
      end
  end.

(** What [os.stat] tells about a path. *)
Inductive kind : Type :=
| IsFile (content : string)
| IsDir.

Definition stat (fs : node) (p : path) : option kind :=
  match lookup fs p with
  | Some (File s) => Some (IsFile s)
  | Some (Dir _) => Some IsDir
  | None => None
  end.

(** [os.path.exists] *)
Definition path_exists (fs : node) (p : path) : bool :=
  match stat fs p with Some _ => true | None => false end.

(** [Path.is_dir] *)
Definition is_dir (fs : node) (p : path) : bool :=
  match stat fs p with Some IsDir => true | _ => false end.

Definition is_file (fs : node) (p : path) : bool :=
  match stat fs p with Some (IsFile _) => true | _ => false end.

(** The names [os.walk] sorts into [dirnames] and [filenames]. *)
Fixpoint dirnames (es : list (string * node)) : list string :=
  match es with
  | [] => []
  | (c, Dir _) :: es' => c :: dirnames es'
  | (_, File _) :: es' => dirnames es'
  end.

Fixpoint filenames (es : list (string * node)) : list string :=
  match es with
  | [] => []
  | (c, File _) :: es' => c :: filenames es'
  | (_, Dir _) :: es' => filenames es'
  end.

(** [os.walk(top)], top down: the triple of [top], then the walks of
    its subdirectories.  A path that is no directory gives nothing
    (the error of [scandir] is dropped).  Every directory of the tree
    can be listed: a directory [scandir] fails on, for which the real
    walk yields nothing too, is no part of the model. *)
Fixpoint walk (top : path) (n : node) {struct n}
  : list (path * list string * list string) :=
  match n with
  | File _ => []
  | Dir es =>
      (top, dirnames es, filenames es)
        :: flat_map (fun e => walk (joinpath top (fst e)) (snd e)) es
  end.

Definition os_walk (fs : node) (top : path)
  : list (path * list string * list string) :=
  match lookup fs top with
  | Some n => walk top n
  | None => []
  end.

(** [mkdir -p] of the parts [p] that are missing. *)
Fixpoint mkchain (p : path) : node :=
  match p with
  | [] => Dir []
  | c :: p' => Dir [(c, mkchain p')]
  end.

(** [os.makedirs(p, exist_ok=True)]: it fails when [p] or one of its
    ancestors is a regular file. *)
Fixpoint makedirs (fs : node) (p : path) : result node :=
  match p with
  | [] =>
      match fs with
      | File _ => Raise FileExistsError
      | Dir _ => Ok fs
      end
  | c :: p' =>
      match fs with
      | File _ => Raise NotADirectoryError
      | Dir es =>
          match get c es with
          | Some child =>
              rbind (makedirs child p') (fun child' => Ok (Dir (set c child' es)))
          | None => Ok (Dir (set c (mkchain p') es))
          end
      end
  end.

(** [Path.write_text]: open for writing, truncate or create, write.
    The parent has to be a directory and the path itself no
    directory. *)
Fixpoint write_text (fs : node) (p : path) (text : string) : result node :=
  match p with
  | [] =>
      match fs with
      | File _ => Ok (File text)
      | Dir _ => Raise IsADirectoryError
      end
  | c :: p' =>
      match fs with
      | File _ => Raise NotADirectoryError
      | Dir es =>
          match get c es with
          | Some child =>
              rbind (write_text child p' text)
                    (fun child' => Ok (Dir (set c child' es)))
          | None =>
              match p' with
              | [] => Ok (Dir (set c (File text) es))
              | _ :: _ => Raise FileNotFoundError
              end
          end
      end
  end.

End Fs.
Export Fs.

(** ** [expand_paths] *)

(** [next(it)] of a generator, inside a generator: running out is a
    [RuntimeError]. *)
Definition next {A} (it : list A) : result A :=
  match it with
  | x :: _ => Ok x
  | [] => Raise RuntimeError
  end.

(** The paths yielded for one triple of the walk. *)
Definition python_files (triple : path * list string * list string) : list path :=
  let '(dir, _, file_names) := triple in
  filter (fun p => (suffix p =? ".py")%string)
         (map (fun file_name => joinpath dir file_name) file_names).

Definition expand_paths (fs : node) (source : path) (recursive : bool)
  : result (list path) :=
  let source_is_dir := is_dir fs source in
  if negb source_is_dir then Ok [source]
  else
    rbind (if recursive then Ok (os_walk fs source)
           else rbind (next (os_walk fs source)) (fun first => Ok [first]))
          (fun iterator => Ok (flat_map python_files iterator)).

(** ** The world the command runs in *)

Record world : Type := World { fs : node; stdout : string }.

(** Computations that read and change the world and may raise; an
    exception leaves the world as it was when it was raised. *)
Definition M (A : Type) : Type := world -> result A * world.

Definition ret {A} (a : A) : M A := fun w => (Ok a, w).

Definition bind {A B} (m : M A) (k : A -> M B) : M B :=
  fun w =>
    match m w with
    | (Ok a, w') => k a w'
    | (Raise e, w') => (Raise e, w')
    end.

Definition raise {A} (e : exn) : M A := fun w => (Raise e, w).

Definition lift {A} (r : result A) : M A := fun w => (r, w).

Definition gets {A} (f : node -> A) : M A := fun w => (Ok (f (fs w)), w).

Notation "x <- m ;; k" := (bind m (fun x => k))
  (at level 61, m at next level, right associativity).
Notation "m ;;; k" := (bind m (fun _ => k))
  (at level 61, right associativity).

(** [os.makedirs(p, exist_ok=True)] *)
Definition os_makedirs (p : path) : M unit :=
  fun w =>
    match makedirs (fs w) p with
    | Ok fs' => (Ok tt, World fs' (stdout w))
    | Raise e => (Raise e, w)
    end.

(** [p.write_text(text)] *)
Definition path_write_text (p : path) (text : string) : M unit :=
  fun w =>
    match write_text (fs w) p text with
    | Ok fs' => (Ok tt, World fs' (stdout w))
    | Raise e => (Raise e, w)
    end.

(** [sys.stdout.write(text)] *)
Definition sys_stdout_write (text : string) : M unit :=
  fun w => (Ok tt, World (fs w) (String.append (stdout w) text)).

(** ** What the command takes from outside *)

(** [importlib], the [Workflow] class and its [to_yaml].  Executing a
    module is taken to leave the tree and the standard output alone:
    what the module's own code does to them, and the byte-code cache
    [importlib] writes beside a loaded file, are no part of the model;
    "unchanged" below speaks of what the command itself writes. *)
Class Runtime : Type := {
  (** a value bound at the top level of a module *)
  item : Type;
  Workflow : Type;
  (** [isinstance(item, Workflow)]: the item as a workflow, when it is one *)
  isinstance_Workflow : item -> option Workflow;
  (** [workflow.to_yaml()] *)
  to_yaml : Workflow -> string;
  ModuleSpec : Type;
  Loader : Type;
  (** [importlib.util.spec_from_file_location(name, location)] *)
  spec_from_file_location : string -> path -> option ModuleSpec;
  (** [spec.loader] *)
  spec_loader : ModuleSpec -> option Loader;
  (** [module_from_spec] and [loader.exec_module]: the values of the
      executed module's [__dict__], in the order they were bound, or the
      exception the module raised *)
  exec_module : Loader -> ModuleSpec -> result (list item)
}.

(** The document separator, a line holding three dashes. *)
Definition nl : string := String "010"%char EmptyString.
Definition separator : string := String.append nl (String.append "---" nl).

Definition bad_parameter : exn :=
  BadParameter
    "The provided source path is a folder, but `--to` points at an existing file.".

Section Generate.

Context {R : Runtime}.

(** The items that are workflows, in order. *)
Fixpoint workflows_of (items : list item) : list Workflow :=
  match items with
  | [] => []
  | it :: items' =>
      match isinstance_Workflow it with
      | Some workflow => workflow :: workflows_of items'
      | None => workflows_of items'
      end
  end.

Definition load_workflows_from_module (p : path) : result (list Workflow) :=
  match spec_from_file_location (stem p) p with
  | None => Raise AssertionError
  | Some spec =>
      match spec_loader spec with
      | None => Raise AssertionError
      | Some loader =>
          rbind (exec_module loader spec) (fun values => Ok (workflows_of values))
      end
  end.

(** The first loop of [generate_yaml]: the file name and the joined
    documents of every path that defines a workflow, appended to
    [path_to_output]. *)
Fixpoint collect (paths : list path) (path_to_output : list (string * string))
  : result (list (string * string)) :=
  match paths with
  | [] => Ok path_to_output
  | p :: paths' =>
      rbind (load_workflows_from_module p) (fun workflows =>
        let yaml_outputs := map to_yaml workflows in
        match yaml_outputs with
        | [] => collect paths' path_to_output
        | _ :: _ =>
            let yaml_output := String.concat separator yaml_outputs in
            collect paths' (path_to_output ++ [(name p, yaml_output)])
        end)
  end.

(** The loop that writes one file per entry below [to]. *)
Fixpoint write_outputs (to : path) (path_to_output : list (string * string))
  : M unit :=
  match path_to_output with
  | [] => ret tt
  | (p, content) :: rest =>
      full_path <- lift (with_suffix (joinpath to p) ".yaml") ;;
      path_write_text full_path content ;;;
      write_outputs to rest
  end.

Definition generate_yaml (from_ : path) (to : option path) (recursive : bool)
  : M unit :=
  candidates <- (tree <- gets (fun t => t) ;; lift (expand_paths tree from_ recursive)) ;;
  let paths := sorted candidates in
  path_to_output <- lift (collect paths []) ;;
  match to with
  | Some to =>
      from_is_dir <- gets (fun t => is_dir t from_) ;;
      if from_is_dir then
        to_is_file <- gets (fun t => path_exists t to && negb (is_dir t to)) ;;
        if to_is_file then raise bad_parameter
        else
          os_makedirs to ;;;
          write_outputs to path_to_output
      else
        if (List.length path_to_output =? 1)%nat then
          match path_to_output with
          | (_, content) :: _ => path_write_text to content
          | [] => raise IndexError
          end
        else raise AssertionError
  | None =>
      let output := String.concat separator (map snd path_to_output) in
      sys_stdout_write output
  end.

End Generate.

(** ** The run, seen file by file *)

Section Views.

Context {R : Runtime}.

(** The module at [p] loads without raising. *)
Definition loadable (p : path) : bool :=
  match load_workflows_from_module p with
  | Ok _ => true
  | Raise _ => false
  end.

(** The workflows the module at [p] defines. *)
Definition workflows_at (p : path) : list Workflow :=
  match load_workflows_from_module p with
  | Ok workflows => workflows
  | Raise _ => []
  end.

(** The file defines a workflow. *)
Definition contributes (p : path) : bool :=
  match workflows_at p with
  | [] => false
  | _ :: _ => true
  end.

(** The serialized document of one file: its workflows' documents,
    joined by the separator. *)
Definition serialized (p : path) : string :=
  String.concat separator (map to_yaml (workflows_at p)).

Definition entry_of (p : path) : string * string := (name p, serialized p).

Definition entries_of (paths : list path) : list (string * string) :=
  map entry_of (filter contributes paths).

End Views.

(** Where the entry of a file called [nm] is written below [to]. *)
Definition target (to : path) (nm : string) : path :=
  joinpath to (String.append (name_stem nm) ".yaml").

(** The text the entries leave at [q]: that of the last entry written
    there, if there is one. *)
Fixpoint written (to : path) (entries : list (string * string)) (q : path)
  : option string :=
  match entries with
  | [] => None
  | (nm, text) :: rest =>
      match written to rest q with
      | Some later => Some later
      | None => if path_eq_dec q (target to nm) then Some text else None
      end
  end.

(** ** Well-formed trees *)

Fixpoint distinct (names : list string) : bool :=
  match names with
  | [] => true
  | c :: names' => negb (existsb (String.eqb c) names') && distinct names'
  end.

(** No directory lists a name twice. *)
Fixpoint well_formed (n : node) : bool :=
  match n with
  | File _ => true
  | Dir es => distinct (map fst es) && forallb (fun e => well_formed (snd e)) es
  end.

(** Neither [p] nor a directory above it is a regular file: what
    [os.makedirs] needs to succeed. *)
Fixpoint creatable (fs : node) (p : path) : bool :=
  match fs with
  | File _ => false
  | Dir es =>
      match p with
      | [] => true
      | c :: p' =>
          match get c es with
          | Some child => creatable child p'
          | None => true
          end
      end
  end.

(** ** A small installation to run the command on *)

Module Demo.

(** A module binds workflows ([Some] of what they serialize to) and
    other objects ([None]). *)
Definition modules : list (path * result (list (option string))) :=
  [ (["wf"; "a.py"], Ok [None; Some "A"]);
    (["wf"; "b.py"], Ok [None]);
    (["wf"; "c.py"], Ok [Some "C"]);
    (["wf"; "nightly"; "a.py"], Ok [Some "N"]);
    (["solo.py"], Ok [Some "X"; None; Some "Y"]);
    (["empty.py"], Ok [None]);
    (["drafts"; "todo.py"], Ok []);
    (["broken"; "bad.py"], Raise (Exception "division by zero")) ].

Fixpoint module_at (table : list (path * result (list (option string)))) (p : path)
  : result (list (option string)) :=
  match table with
  | [] => Raise FileNotFoundError
  | (q, r) :: table' => if path_eq_dec q p then r else module_at table' p
  end.

(** Only a [.py] file gets a module spec, and with it a loader. *)
Definition runtime : Runtime := {|
  item := option string;
  Workflow := string;
  isinstance_Workflow := fun it => it;
  to_yaml := fun workflow => workflow;
  ModuleSpec := path;
  Loader := unit;
  spec_from_file_location := fun _ location =>
    if (suffix location =? ".py")%string then Some location else None;
  spec_loader := fun _ => Some tt;
  exec_module := fun _ spec => module_at modules spec
|}.

Definition tree : node :=
  Dir [ ("wf", Dir [ ("a.py", File "import hera");
                     ("b.py", File "x = 1");
                     ("c.py", File "import hera");
                     ("README.md", File "workflows");
                     ("nightly", Dir [ ("a.py", File "import hera");
                                       ("notes.txt", File "") ]) ]);
        ("drafts", Dir [ ("todo.py", File ""); ("ideas.txt", File "") ]);
        ("broken", Dir [ ("bad.py", File "1 / 0") ]);
        ("solo.py", File "import hera");
        ("empty.py", File "x = 1");
        ("notes.txt", File "remember");
        ("dist", Dir []) ].

Definition start : world := World tree "".

(** The candidates below [wf], without and with recursion. *)
Definition flat_candidates : list path :=
  [["wf"; "a.py"]; ["wf"; "b.py"]; ["wf"; "c.py"]].

Definition deep_candidates : list path :=
  [["wf"; "a.py"]; ["wf"; "b.py"]; ["wf"; "c.py"]; ["wf"; "nightly"; "a.py"]].

End Demo.

(** ** A second installation, with what can go wrong *)

Module Workshop.

(** [jobs/b.py] raises while it is executed. *)
Definition modules : list (path * result (list (option string))) :=
  [ (["jobs"; "a.py"], Ok [Some "A"]);
    (["jobs"; "b.py"], Raise (Exception "boom"));
    (["jobs"; "c.py"], Ok [Some "C"]);
    (["etl"; "a.py"], Ok [Some "A"]);
    (["etl"; "b.py"], Ok [None; Some "B"]);
    (["etl"; "c.py"], Ok [Some "C"]) ].

Definition runtime : Runtime := {|
  item := option string;
  Workflow := string;
  isinstance_Workflow := fun it => it;
  to_yaml := fun workflow => workflow;
  ModuleSpec := path;
  Loader := unit;
  spec_from_file_location := fun _ location =>
    if (suffix location =? ".py")%string then Some location else None;
  spec_loader := fun _ => Some tt;
  exec_module := fun _ spec => Demo.module_at modules spec
|}.

(** [site/b.yaml] is a directory, [report.txt] a regular file. *)
Definition tree : node :=
  Dir [ ("jobs", Dir [ ("c.py", File ""); ("a.py", File ""); ("b.py", File "") ]);
        ("etl", Dir [ ("c.py", File ""); ("b.py", File ""); ("a.py", File "") ]);
        ("site", Dir [ ("b.yaml", Dir []) ]);
        ("report.txt", File "totals") ].

Definition start : world := World tree "".

Definition etl_candidates : list path :=
  [["etl"; "c.py"]; ["etl"; "b.py"]; ["etl"; "a.py"]].

Definition jobs_candidates : list path :=
  [["jobs"; "c.py"]; ["jobs"; "a.py"]; ["jobs"; "b.py"]].

End Workshop.

(** * Proofs *)

(** ** Facts about the tree *)

Section NodeInduction.

Variable P : node -> Prop.
Hypothesis P_File : forall s, P (File s).
Hypothesis P_Dir : forall es, Forall (fun e => P (snd e)) es -> P (Dir es).

Fixpoint node_ind' (n : node) : P n :=
  match n with
  | File s => P_File s
  | Dir es =>
      P_Dir es
        ((fix entries_ind (l : list (string * node)) : Forall (fun e => P (snd e)) l :=
            match l with
            | [] => Forall_nil _
            | e :: l' => Forall_cons e (node_ind' (snd e)) (entries_ind l')
            end) es)
  end.

End NodeInduction.

Lemma distinct_NoDup names : distinct names = true <-> NoDup names.
Proof.
  induction names as [|c names IH]; simpl.
  - split; [constructor | reflexivity].
  - rewrite andb_true_iff, negb_true_iff, IH. split.
    + intros [Hc Hn]. constructor; [|assumption].
      intro Hin. assert (existsb (String.eqb c) names = true) as E.
      { apply existsb_exists. exists c. split; [assumption | apply String.eqb_refl]. }
      congruence.
    + intro Hnd. inversion Hnd as [|? ? Hc Hn]; subst. split; [|assumption].
      destruct (existsb (String.eqb c) names) eqn:E; [|reflexivity].
      apply existsb_exists in E. destruct E as [x [Hin Hx]].
      apply String.eqb_eq in Hx. subst x. contradiction.
Qed.

Lemma get_In c es n : get c es = Some n -> In (c, n) es.
Proof.
  induction es as [|[c' n'] es IH]; simpl; [discriminate|].
  destruct (String.eqb_spec c' c) as [->|Hne]; intro H.
  - inversion H; subst. now left.
  - right. auto.
Qed.

Lemma In_get c es n :
  NoDup (map fst es) -> In (c, n) es -> get c es = Some n.
Proof.
  induction es as [|[c' n'] es IH]; simpl; [contradiction|].
  intros Hnd [Heq | Hin]; inversion Hnd as [|? ? Hc Hn]; subst.
  - inversion Heq; subst. now rewrite String.eqb_refl.
  - destruct (String.eqb_spec c' c) as [->|Hne]; [|auto].
    exfalso. apply Hc. change c with (fst (c, n)). now apply in_map.
Qed.

Lemma get_set c' c n es :
  get c' (set c n es) = if (c =? c')%string then Some n else get c' es.
Proof.
  induction es as [|[d m] es IH]; simpl.
  - reflexivity.
  - destruct (String.eqb_spec d c) as [->|Hdc]; simpl.
    + destruct (String.eqb_spec c c'); reflexivity.
    + rewrite IH. destruct (String.eqb_spec d c') as [->|Hdc'].
      * destruct (String.eqb_spec c c'); [congruence | reflexivity].
      * reflexivity.
Qed.

Lemma filenames_In c es : In c (filenames es) <-> exists s, In (c, File s) es.
Proof.
  induction es as [|[d [s|sub]] es IH]; simpl.
  - split; [contradiction | intros [? []]].
  - rewrite IH. split.
    + intros [-> | [s' H]]; eauto.
    + intros [s' [H | H]]; [inversion H; subst; auto | eauto].
  - rewrite IH. split.
    + intros [s' H]; eauto.
    + intros [s' [H | H]]; [discriminate | eauto].
Qed.

Lemma filenames_incl_names es : incl (filenames es) (map fst es).
Proof.
  intros c Hc. apply filenames_In in Hc. destruct Hc as [s Hs].
  change c with (fst (c, File s)). now apply in_map.
Qed.

Lemma filenames_NoDup es : NoDup (map fst es) -> NoDup (filenames es).
Proof.
  induction es as [|[d [s|sub]] es IH]; simpl; intro Hnd.
  - constructor.
  - inversion Hnd; subst. constructor; [|auto].
    intro Hin. now apply filenames_incl_names in Hin.
  - inversion Hnd; subst. auto.
Qed.

Lemma lookup_app fs p q :
  lookup fs (p ++ q) =
  match lookup fs p with Some n => lookup n q | None => None end.
Proof.
  revert fs. induction p as [|c p IH]; intro fs; simpl; [reflexivity|].
  destruct fs as [s|es]; [reflexivity|].
  destruct (get c es); [apply IH | reflexivity].
Qed.

Lemma well_formed_Dir es :
  well_formed (Dir es) = true ->
  NoDup (map fst es) /\ forall c n, In (c, n) es -> well_formed n = true.
Proof.
  simpl. rewrite andb_true_iff, distinct_NoDup, forallb_forall.
  intros [Hnd Hall]. split; [assumption|].
  intros c n Hin. exact (Hall (c, n) Hin).
Qed.

Lemma well_formed_lookup fs p n :
  well_formed fs = true -> lookup fs p = Some n -> well_formed n = true.
Proof.
  revert fs. induction p as [|c p IH]; intros fs Hwf; simpl.
  - intro E. now inversion E; subst.
  - destruct fs as [s|es]; [discriminate|].
    destruct (get c es) as [child|] eqn:G; [|discriminate].
    apply IH. apply well_formed_Dir in Hwf. destruct Hwf as [_ Hall].
    apply (Hall c). now apply get_In.
Qed.

Lemma is_dir_lookup fs p :
  is_dir fs p = true <-> exists es, lookup fs p = Some (Dir es).
Proof.
  unfold is_dir, stat. destruct (lookup fs p) as [[s|es]|]; split;
    try discriminate; eauto; intros [es' E]; discriminate.
Qed.

Lemma is_file_lookup fs p :
  is_file fs p = true <-> exists s, lookup fs p = Some (File s).
Proof.
  unfold is_file, stat. destruct (lookup fs p) as [[s|es]|]; split;
    try discriminate; eauto; intros [es' E]; discriminate.
Qed.

(** ** [os.walk] and [expand_paths] *)

(** The triples of a walk are the directories of the tree, each with the
    names [scandir] lists in it. *)
Lemma walk_spec n :
  well_formed n = true ->
  forall top dir ds fs_,
    In (dir, ds, fs_) (walk top n) <->
    exists rel es,
      dir = top ++ rel /\ lookup n rel = Some (Dir es) /\
      ds = dirnames es /\ fs_ = filenames es.
Proof.
  induction n as [s|es IH] using node_ind'; intros Hwf top dir ds fs_.
  - simpl. split; [contradiction|].
    intros [rel [es [_ [E _]]]]. destruct rel; simpl in E; discriminate.
  - apply well_formed_Dir in Hwf. destruct Hwf as [Hnd Hall].
    rewrite Forall_forall in IH. simpl. rewrite in_flat_map. split.
    + intros [E | [[c child] [Hin Hw]]].
      * inversion E; subst. exists [], es. rewrite app_nil_r. auto.
      * simpl in Hw. apply (IH (c, child) Hin (Hall c child Hin)) in Hw.
        destruct Hw as [rel [es' [-> [Hl [-> ->]]]]].
        exists (c :: rel), es'. unfold joinpath. rewrite <- app_assoc. simpl.
        rewrite (In_get c es child Hnd Hin). auto.
    + intros [[|c rel] [es' [-> [Hl [-> ->]]]]].
      * simpl in Hl. inversion Hl; subst. left. now rewrite app_nil_r.
      * right. simpl in Hl. destruct (get c es) as [child|] eqn:G; [|discriminate].
        apply get_In in G. exists (c, child). split; [assumption|]. simpl.
        apply (IH (c, child) G (Hall c child G)).
        exists rel, es'. unfold joinpath. rewrite <- app_assoc. auto.
Qed.

Lemma python_files_In dir ds fs_ p :
  In p (python_files (dir, ds, fs_)) <->
  exists file_name,
    In file_name fs_ /\ p = joinpath dir file_name /\ suffix p = ".py".
Proof.
  unfold python_files. rewrite filter_In, in_map_iff, String.eqb_eq. split.
  - intros [[c [<- Hc]] Hs]. eauto.
  - intros [c [Hc [-> Hs]]]. eauto.
Qed.

Lemma joinpath_inj p c d : joinpath p c = joinpath p d -> c = d.
Proof.
  unfold joinpath. intro E. apply app_inv_head in E. now inversion E.
Qed.

Lemma NoDup_filter {A} (f : A -> bool) l : NoDup l -> NoDup (filter f l).
Proof.
  induction 1 as [|x l Hx Hnd IH]; simpl; [constructor|].
  destruct (f x); [|assumption].
  constructor; [|assumption]. rewrite filter_In. tauto.
Qed.


Lemma NoDup_map_joinpath p names : NoDup names -> NoDup (map (joinpath p) names).
Proof.
  induction 1 as [|c l Hc Hnd IH]; simpl; constructor; [|assumption].
  rewrite in_map_iff. intros [d [E Hd]]. apply joinpath_inj in E. now subst.
Qed.

(** A file right below a directory of a well-formed tree. *)
Lemma is_file_child fs dir es c :
  well_formed fs = true -> lookup fs dir = Some (Dir es) ->
  (In c (filenames es) <-> is_file fs (joinpath dir c) = true).
Proof.
  intros Hwf Hl. pose proof (well_formed_lookup _ _ _ Hwf Hl) as Hwf'.
  apply well_formed_Dir in Hwf'. destruct Hwf' as [Hnd _].
  rewrite is_file_lookup, filenames_In. unfold joinpath.
  rewrite lookup_app, Hl. simpl. split.
  - intros [s Hin]. exists s. now rewrite (In_get c es _ Hnd Hin).
  - intros [s E]. exists s. destruct (get c es) as [n|] eqn:G; [|discriminate].
    inversion E; subst. now apply get_In.
Qed.

Lemma os_walk_first fs source es :
  lookup fs source = Some (Dir es) ->
  next (os_walk fs source) = Ok (source, dirnames es, filenames es).
Proof.
  intro Hl. unfold os_walk. rewrite Hl. reflexivity.
Qed.

Lemma expand_paths_not_dir fs source recursive :
  is_dir fs source = false ->
  expand_paths fs source recursive = Ok [source].
Proof.
  intro H. unfold expand_paths. now rewrite H.
Qed.

(** C8.  A source that is not a directory is yielded as it is, alone:
    no suffix is asked of it, and recursion makes no difference. *)
Theorem expand_paths_single_file fs source recursive :
  is_dir fs source = false ->
  expand_paths fs source recursive = Ok [source] /\
  forall other, expand_paths fs source recursive = Ok other -> other = [source].
Proof.
  intro H. rewrite (expand_paths_not_dir fs source recursive H).
  split; [reflexivity|]. intros other E. now inversion E.
Qed.

(** C6.  A directory expanded without recursion yields exactly the files
    right below it whose suffix is [.py], each once: every yielded path
    is the directory joined with one file name, so nothing comes from a
    subdirectory. *)
Theorem expand_paths_flat fs source :
  well_formed fs = true ->
  is_dir fs source = true ->
  exists paths,
    expand_paths fs source false = Ok paths /\
    NoDup paths /\
    forall p,
      In p paths <->
      exists file_name,
        p = joinpath source file_name /\
        is_file fs p = true /\ suffix p = ".py".
Proof.
  intros Hwf Hdir. pose proof Hdir as Hl. apply is_dir_lookup in Hl.
  destruct Hl as [es Hl].
  exists (python_files (source, dirnames es, filenames es)).
  split; [|split].
  - unfold expand_paths. rewrite Hdir. simpl.
    rewrite (os_walk_first _ _ _ Hl). simpl. now rewrite app_nil_r.
  - unfold python_files. apply NoDup_filter, NoDup_map_joinpath, filenames_NoDup.
    pose proof (well_formed_lookup _ _ _ Hwf Hl) as Hwf'.
    now apply well_formed_Dir in Hwf'.
  - intro p. rewrite python_files_In. split.
    + intros [c [Hc [-> Hs]]]. exists c. split; [reflexivity|]. split; [|assumption].
      now apply (is_file_child fs source es c Hwf Hl).
    + intros [c [-> [Hf Hs]]]. exists c. split; [|auto].
      now apply (is_file_child fs source es c Hwf Hl).
Qed.

(** C7.  A directory expanded with recursion yields every file of its
    subtree, at any depth, whose suffix is [.py], and nothing else. *)
Theorem expand_paths_recursive fs source :
  well_formed fs = true ->
  is_dir fs source = true ->
  exists paths,
    expand_paths fs source true = Ok paths /\
    forall p,
      In p paths <->
      (exists rel, p = source ++ rel) /\
      is_file fs p = true /\ suffix p = ".py".
Proof.
  intros Hwf Hdir. pose proof Hdir as Hl. apply is_dir_lookup in Hl.
  destruct Hl as [es Hl].
  exists (flat_map python_files (os_walk fs source)). split.
  - unfold expand_paths. rewrite Hdir. reflexivity.
  - intro p. unfold os_walk. rewrite Hl.
    pose proof (well_formed_lookup _ _ _ Hwf Hl) as Hwf'.
    rewrite in_flat_map. split.
    + intros [[[dir ds] fs_] [Hw Hp]].
      apply (walk_spec _ Hwf') in Hw. destruct Hw as [rel [es' [-> [Hl' [-> ->]]]]].
      apply python_files_In in Hp. destruct Hp as [c [Hc [-> Hs]]].
      assert (lookup fs (source ++ rel) = Some (Dir es')) as Hl2
          by (now rewrite lookup_app, Hl).
      split; [|split; [|assumption]].
      * exists (rel ++ [c]). unfold joinpath. now rewrite app_assoc.
      * now apply (is_file_child fs (source ++ rel) es' c Hwf Hl2).
    + intros [[rel ->] [Hf Hs]].
      destruct (exists_last (l := rel)) as [rel' [c ->]].
      { intros ->. rewrite app_nil_r in Hf. apply is_file_lookup in Hf.
        destruct Hf as [s Hf]. congruence. }
      pose proof Hf as Hf'. apply is_file_lookup in Hf'. destruct Hf' as [s Hs'].
      rewrite app_assoc, lookup_app in Hs'.
      destruct (lookup fs (source ++ rel')) as [[s'|es']|] eqn:Hl2;
        try discriminate.
      exists (source ++ rel', dirnames es', filenames es'). split.
      * apply (walk_spec _ Hwf'). exists rel', es'.
        rewrite lookup_app, Hl in Hl2. auto.
      * apply python_files_In. exists c. unfold joinpath.
        rewrite <- app_assoc. split; [|auto].
        apply (is_file_child fs (source ++ rel') es' c Hwf Hl2).
        unfold joinpath. now rewrite <- app_assoc.
Qed.

(** ** Facts about [makedirs] and [write_text] *)

Lemma creatable_spec fs p :
  creatable fs p = true <->
  forall q, is_prefix q p = true -> is_file fs q = false.
Proof.
  revert fs. induction p as [|c p IH]; intros [s|es]; simpl.
  - split; [discriminate|]. intro H. specialize (H [] eq_refl). discriminate.
  - split; [|reflexivity]. intros _ [|d q]; [reflexivity | discriminate].
  - split; [discriminate|]. intro H. specialize (H [] eq_refl). discriminate.
  - destruct (get c es) as [child|] eqn:G.
    + rewrite IH. split.
      * intros H [|d q]; [reflexivity|]. simpl.
        destruct (String.eqb_spec d c) as [->|]; [|discriminate]. simpl.
        intro Hq. specialize (H q Hq). unfold is_file, stat in *. simpl.
        now rewrite G.
      * intros H q Hq. specialize (H (c :: q)). simpl in H.
        rewrite String.eqb_refl in H. specialize (H Hq).
        unfold is_file, stat in *. simpl in H. now rewrite G in H.
    + split; [|reflexivity]. intros _ [|d q]; [reflexivity|]. simpl.
      destruct (String.eqb_spec d c) as [->|]; [|discriminate]. intros _.
      unfold is_file, stat. simpl. now rewrite G.
Qed.

Lemma makedirs_ok fs p :
  creatable fs p = true <-> exists fs', makedirs fs p = Ok fs'.
Proof.
  revert fs. induction p as [|c p IH]; intros [s|es]; simpl.
  - split; [discriminate | intros [? ?]; discriminate].
  - split; eauto.
  - split; [discriminate | intros [? ?]; discriminate].
  - destruct (get c es) as [child|] eqn:G; [|split; eauto].
    rewrite IH. split.
    + intros [child' ->]. simpl. eauto.
    + destruct (makedirs child p); simpl; eauto; intros [? ?]; discriminate.
Qed.

Lemma stat_cons_Dir es c q :
  stat (Dir es) (c :: q) =
  match get c es with Some child => stat child q | None => None end.
Proof.
  unfold stat. simpl. destruct (get c es); reflexivity.
Qed.

Lemma stat_mkchain p q :
  stat (mkchain p) q = if is_prefix q p then Some IsDir else None.
Proof.
  revert q. induction p as [|c p IH]; intros [|d q]; try reflexivity.
  simpl mkchain. rewrite stat_cons_Dir. simpl.
  destruct (String.eqb_spec c d) as [->|Hne].
  - rewrite String.eqb_refl. simpl. apply IH.
  - destruct (String.eqb_spec d c); [congruence | reflexivity].
Qed.

(** [makedirs] turns [p] and what is above it into directories and
    leaves every other path as it was. *)
Lemma stat_makedirs p : forall fs fs',
  makedirs fs p = Ok fs' ->
  forall q, stat fs' q = if is_prefix q p then Some IsDir else stat fs q.
Proof.
  induction p as [|c p IH]; intros [s|es] fs'; simpl; try discriminate.
  - intros E [|d q]; inversion E; subst; reflexivity.
  - destruct (get c es) as [child|] eqn:G.
    + destruct (makedirs child p) as [child'|] eqn:Em; simpl; [|discriminate].
      intros E [|d q]; inversion E; subst; [reflexivity|].
      rewrite !stat_cons_Dir, get_set. simpl.
      destruct (String.eqb_spec c d) as [->|Hne].
      * rewrite String.eqb_refl, G. simpl. now apply IH.
      * destruct (String.eqb_spec d c); [congruence | reflexivity].
    + intros E [|d q]; inversion E; subst; [reflexivity|].
      rewrite !stat_cons_Dir, get_set. simpl.
      destruct (String.eqb_spec c d) as [->|Hne].
      * rewrite String.eqb_refl, G. simpl. apply stat_mkchain.
      * destruct (String.eqb_spec d c); [congruence | reflexivity].
Qed.

(** [write_text] makes [p] a file holding the text and leaves every
    other path as it was. *)
Lemma stat_write_text p text : forall fs fs',
  write_text fs p text = Ok fs' ->
  forall q, stat fs' q = if path_eq_dec q p then Some (IsFile text) else stat fs q.
Proof.
  induction p as [|c p IH]; intros [s|es] fs'; simpl; try discriminate.
  - intros E [|d q]; inversion E; subst; reflexivity.
  - destruct (get c es) as [child|] eqn:G.
    + destruct (write_text child p text) as [child'|] eqn:Ew; simpl; [|discriminate].
      intros E [|d q]; inversion E; subst.
      * destruct (path_eq_dec [] (c :: p)); [discriminate | reflexivity].
      * rewrite !stat_cons_Dir, get_set.
        destruct (String.eqb_spec c d) as [->|Hne].
        -- rewrite G, (IH _ _ Ew q).
           destruct (path_eq_dec q p), (path_eq_dec (d :: q) (d :: p));
             congruence.
        -- destruct (path_eq_dec (d :: q) (c :: p)); [congruence | reflexivity].
    + destruct p as [|c' p]; [|discriminate].
      intros E [|d q]; inversion E; subst.
      * destruct (path_eq_dec [] [c]); [discriminate | reflexivity].
      * rewrite !stat_cons_Dir, get_set.
        destruct (String.eqb_spec c d) as [->|Hne].
        -- rewrite G. destruct q as [|d' q].
           ++ destruct (path_eq_dec [d] [d]); [reflexivity | congruence].
           ++ destruct (path_eq_dec (d :: d' :: q) [d]); [discriminate | reflexivity].
        -- destruct (path_eq_dec (d :: q) [c]); [congruence | reflexivity].
Qed.

(** Writing below a directory succeeds unless the path is a directory
    itself. *)
Lemma write_text_ok dir c text : forall fs,
  is_dir fs dir = true -> is_dir fs (joinpath dir c) = false ->
  exists fs', write_text fs (joinpath dir c) text = Ok fs'.
Proof.
  unfold joinpath, is_dir.
  induction dir as [|d dir IH]; intros [s|es]; simpl; try discriminate.
  - rewrite stat_cons_Dir. intros _.
    destruct (get c es) as [[s|sub]|] eqn:G; simpl; eauto; discriminate.
  - rewrite !stat_cons_Dir.
    destruct (get d es) as [child|] eqn:G; [|discriminate].
    intros H1 H2. destruct (IH child H1 H2) as [child' ->]. simpl. eauto.
Qed.

Lemma write_text_to_directory fs p text :
  is_dir fs p = true -> write_text fs p text = Raise IsADirectoryError.
Proof.
  unfold is_dir. revert fs.
  induction p as [|c p IH]; intros [s|es]; simpl; try discriminate; auto.
  rewrite stat_cons_Dir. destruct (get c es) as [child|]; [|discriminate].
  intro H. now rewrite (IH child H).
Qed.

Lemma is_prefix_refl p : is_prefix p p = true.
Proof.
  induction p as [|c p IH]; simpl; [reflexivity|].
  now rewrite String.eqb_refl.
Qed.

Lemma is_prefix_joinpath p c : is_prefix (joinpath p c) p = false.
Proof.
  unfold joinpath. induction p as [|d p IH]; simpl; [reflexivity|].
  now rewrite String.eqb_refl.
Qed.

Lemma exists_not_dir_is_file fs p :
  path_exists fs p && negb (is_dir fs p) = is_file fs p.
Proof.
  unfold path_exists, is_dir, is_file. now destruct (stat fs p) as [[s|]|].
Qed.

(** ** The run of [generate_yaml] *)

Arguments sorted : simpl never.

Section GenerateFacts.

Context {R : Runtime}.

Lemma entries_of_cons p paths :
  entries_of (p :: paths) =
  if contributes p then entry_of p :: entries_of paths else entries_of paths.
Proof.
  unfold entries_of. cbn [filter]. now destruct (contributes p).
Qed.

Lemma collect_cons p paths acc :
  collect (p :: paths) acc =
  rbind (load_workflows_from_module p) (fun workflows =>
    match map to_yaml workflows with
    | [] => collect paths acc
    | _ :: _ =>
        collect paths
          (acc ++ [(name p, String.concat separator (map to_yaml workflows))])
    end).
Proof. reflexivity. Qed.

Lemma collect_ok paths : forall acc,
  (forall p, In p paths -> loadable p = true) ->
  collect paths acc = Ok (acc ++ entries_of paths).
Proof.
  induction paths as [|p paths IH]; intros acc Hall.
  - simpl. now rewrite app_nil_r.
  - rewrite collect_cons, entries_of_cons.
    pose proof (Hall p (or_introl eq_refl)) as Hp.
    unfold contributes, entry_of, serialized, workflows_at.
    unfold loadable in Hp.
    destruct (load_workflows_from_module p) as [[|w ws]|e]; [| |discriminate];
      cbn [rbind map]; rewrite IH by (intros q Hq; apply Hall; now right).
    + reflexivity.
    + now rewrite <- app_assoc.
Qed.

Lemma collect_loadable paths : forall acc entries,
  collect paths acc = Ok entries -> forall p, In p paths -> loadable p = true.
Proof.
  induction paths as [|p paths IH]; intros acc entries E q Hq.
  - contradiction.
  - unfold loadable. destruct Hq as [<- | Hq].
    + rewrite collect_cons in E.
      destruct (load_workflows_from_module p); [reflexivity | discriminate].
    + rewrite collect_cons in E.
      destruct (load_workflows_from_module p) as [[|w ws]|e]; cbn [rbind map] in E;
        try discriminate; exact (IH _ _ E q Hq).
Qed.

Lemma name_joinpath to nm : name (joinpath to nm) = nm.
Proof. unfold name, joinpath. apply last_last. Qed.

Lemma with_suffix_joinpath to nm sfx :
  nm <> "" ->
  with_suffix (joinpath to nm) sfx = Ok (joinpath to (String.append (name_stem nm) sfx)).
Proof.
  intro Hnm. unfold with_suffix, stem. rewrite name_joinpath.
  destruct (String.eqb_spec nm ""); [contradiction|].
  unfold joinpath. now rewrite removelast_last.
Qed.

Lemma suffix_py_name p : suffix p = ".py" -> name p <> "".
Proof.
  unfold suffix. intros H E. rewrite E in H. discriminate.
Qed.

Lemma target_not_to to nm : target to nm <> to.
Proof.
  unfold target, joinpath. intro E.
  apply (f_equal (@List.length string)) in E. rewrite length_app in E.
  simpl in E. lia.
Qed.

(** The loop over the entries: every write succeeds when no target is
    a directory, and each target ends up with the text written to it
    last. *)
Lemma write_outputs_spec to out entries : forall fs0,
  is_dir fs0 to = true ->
  (forall nm text, In (nm, text) entries ->
     nm <> "" /\ is_dir fs0 (target to nm) = false) ->
  exists fs1,
    write_outputs to entries (World fs0 out) = (Ok tt, World fs1 out) /\
    forall q,
      stat fs1 q =
      match written to entries q with
      | Some text => Some (IsFile text)
      | None => stat fs0 q
      end.
Proof.
  induction entries as [|[nm text] rest IH]; intros fs0 Hto Hall.
  - exists fs0. split; reflexivity.
  - destruct (Hall nm text (or_introl eq_refl)) as [Hnm Hnd].
    destruct (write_text_ok to (String.append (name_stem nm) ".yaml") text fs0 Hto Hnd)
      as [fs' Hw].
    pose proof (stat_write_text _ _ _ _ Hw) as Hs.
    destruct (IH fs') as [fs1 [Hrun Hstat]].
    + unfold is_dir in *. rewrite Hs.
      destruct (path_eq_dec to (joinpath to (String.append (name_stem nm) ".yaml")))
        as [E|_]; [|assumption].
      symmetry in E. now apply target_not_to in E.
    + intros nm' text' Hin. destruct (Hall nm' text' (or_intror Hin)) as [Hnm' Hnd'].
      split; [assumption|]. unfold is_dir in *. rewrite Hs.
      destruct (path_eq_dec (target to nm') (joinpath to (String.append (name_stem nm) ".yaml")));
        [reflexivity | assumption].
    + exists fs1. split.
      * simpl. unfold bind, lift, path_write_text.
        rewrite (with_suffix_joinpath to nm ".yaml" Hnm). simpl.
        rewrite Hw. exact Hrun.
      * intro q. rewrite Hstat. simpl.
        destruct (written to rest q); [reflexivity|]. rewrite Hs.
        unfold target. now destruct (path_eq_dec q _).
Qed.

Lemma sorted_In candidates p : In p (sorted candidates) <-> In p candidates.
Proof.
  unfold sorted. split; intro H.
  - eapply Permutation_in; [|exact H].
    apply Permutation_sym, PathSort.Permuted_sort.
  - eapply Permutation_in; [|exact H]. apply PathSort.Permuted_sort.
Qed.

(** [expand_paths] never raises. *)
Lemma expand_paths_total fs0 source recursive :
  exists candidates, expand_paths fs0 source recursive = Ok candidates.
Proof.
  unfold expand_paths. destruct (is_dir fs0 source) eqn:Hdir; simpl; eauto.
  destruct recursive; simpl; eauto.
  apply is_dir_lookup in Hdir. destruct Hdir as [es Hl].
  rewrite (os_walk_first _ _ _ Hl). simpl. eauto.
Qed.

(** Below a directory only [.py] files are candidates. *)
Lemma expand_paths_suffix fs0 source recursive candidates :
  is_dir fs0 source = true ->
  expand_paths fs0 source recursive = Ok candidates ->
  forall p, In p candidates -> suffix p = ".py".
Proof.
  intros Hdir E p Hp. unfold expand_paths in E. rewrite Hdir in E. simpl in E.
  assert (exists it, candidates = flat_map python_files it) as [it ->].
  { destruct recursive; simpl in E.
    - inversion E. eauto.
    - destruct (next (os_walk fs0 source)) as [first|]; simpl in E; inversion E.
      now exists [first]. }
  apply in_flat_map in Hp. destruct Hp as [[[dir ds] fs_] [_ Hp]].
  apply python_files_In in Hp. now destruct Hp as [c [_ [_ Hs]]].
Qed.

(** [generate_yaml] after its two first steps. *)
Lemma generate_yaml_route fs0 out from_ to recursive candidates entries :
  expand_paths fs0 from_ recursive = Ok candidates ->
  collect (sorted candidates) [] = Ok entries ->
  generate_yaml from_ to recursive (World fs0 out) =
  match to with
  | Some to =>
      if is_dir fs0 from_ then
        if path_exists fs0 to && negb (is_dir fs0 to)
        then (Raise bad_parameter, World fs0 out)
        else (os_makedirs to ;;; write_outputs to entries) (World fs0 out)
      else
        match entries with
        | [(_, content)] => path_write_text to content (World fs0 out)
        | _ => (Raise AssertionError, World fs0 out)
        end
  | None =>
      sys_stdout_write (String.concat separator (map snd entries)) (World fs0 out)
  end.
Proof.
  intros He Hc. unfold generate_yaml, bind at 1 2 3, gets, lift. cbn [fs].
  rewrite He, Hc. destruct to as [to|]; [|reflexivity].
  unfold bind at 1, gets. cbn [fs].
  destruct (is_dir fs0 from_).
  - unfold bind at 1, gets. cbn [fs].
    destruct (path_exists fs0 to && negb (is_dir fs0 to)); reflexivity.
  - destruct entries as [|[nm text] [|e rest]]; reflexivity.
Qed.

(** A candidate that fails to load ends the run before anything is
    written. *)
Lemma generate_yaml_load_error fs0 out from_ to recursive candidates e :
  expand_paths fs0 from_ recursive = Ok candidates ->
  collect (sorted candidates) [] = Raise e ->
  generate_yaml from_ to recursive (World fs0 out) = (Raise e, World fs0 out).
Proof.
  intros He Hc. unfold generate_yaml, bind, gets, lift. cbn [fs].
  now rewrite He, Hc.
Qed.

End GenerateFacts.

(** ** Facts about names and suffixes *)

Lemma length_append s t :
  String.length (s ++ t)%string = String.length s + String.length t.
Proof.
  induction s as [|a s IH]; simpl; [reflexivity | now rewrite IH].
Qed.

Lemma append_inv_tail t : forall s1 s2,
  (s1 ++ t)%string = (s2 ++ t)%string -> s1 = s2.
Proof.
  induction s1 as [|a s1 IH]; intros [|b s2] E; simpl in E.
  - reflexivity.
  - apply (f_equal String.length) in E. simpl in E. rewrite length_append in E. lia.
  - apply (f_equal String.length) in E. simpl in E. rewrite length_append in E. lia.
  - inversion E; subst. f_equal. now apply IH.
Qed.

Lemma substring_all s : substring 0 (String.length s) s = s.
Proof.
  induction s as [|a s IH]; simpl; [reflexivity | now rewrite IH].
Qed.

Lemma substring_split s : forall i,
  i <= String.length s ->
  s = (substring 0 i s ++ substring i (String.length s - i) s)%string.
Proof.
  induction s as [|a s IH]; intros [|i] Hi; simpl in *; try lia.
  - reflexivity.
  - now rewrite substring_all.
  - rewrite <- IH by lia. reflexivity.
Qed.

Lemma substring_length s : forall i,
  i <= String.length s ->
  String.length (substring i (String.length s - i) s) = String.length s - i.
Proof.
  induction s as [|a s IH]; intros [|i] Hi; simpl in *; try lia.
  - now rewrite substring_all.
  - apply IH. lia.
Qed.

(** A name with a suffix is its stem followed by the suffix. *)
Lemma name_stem_suffix nm :
  name_suffix nm <> "" -> nm = (name_stem nm ++ name_suffix nm)%string.
Proof.
  unfold name_stem, name_suffix.
  destruct (rfind "." nm) as [i|]; [|congruence].
  destruct ((0 <? i) && (i <? String.length nm - 1))%nat eqn:Hi; [|congruence].
  intros _. apply andb_true_iff in Hi. destruct Hi as [_ Hi].
  apply Nat.ltb_lt in Hi.
  rewrite substring_length by lia.
  replace (String.length nm - (String.length nm - i)) with i by lia.
  apply substring_split. lia.
Qed.

Lemma target_inj to nm1 nm2 :
  name_suffix nm1 = ".py" -> name_suffix nm2 = ".py" ->
  joinpath to (name_stem nm1 ++ ".yaml")%string =
  joinpath to (name_stem nm2 ++ ".yaml")%string ->
  nm1 = nm2.
Proof.
  intros H1 H2 E. apply joinpath_inj, append_inv_tail in E.
  rewrite (name_stem_suffix nm1), (name_stem_suffix nm2) by (rewrite ?H1, ?H2; discriminate).
  now rewrite H1, H2, E.
Qed.

(** ** Writing below a destination directory *)

Section DirectoryRun.

Context {R : Runtime}.

Lemma entries_of_In paths nm text :
  In (nm, text) (entries_of paths) <->
  exists p, In p paths /\ contributes p = true /\ nm = name p /\ text = serialized p.
Proof.
  unfold entries_of, entry_of. rewrite in_map_iff. split.
  - intros [p [E Hp]]. apply filter_In in Hp. inversion E; subst.
    exists p. tauto.
  - intros [p [Hp [Hc [-> ->]]]]. exists p. rewrite filter_In. auto.
Qed.

Lemma written_none to entries q :
  (forall nm text, In (nm, text) entries -> q <> target to nm) ->
  written to entries q = None.
Proof.
  induction entries as [|[nm text] rest IH]; intro H; simpl; [reflexivity|].
  rewrite IH by (intros nm' text' Hin; apply (H nm' text'); now right).
  destruct (path_eq_dec q (target to nm)) as [E|_]; [|reflexivity].
  exfalso. exact (H nm text (or_introl eq_refl) E).
Qed.

Lemma written_app to before after q :
  written to (before ++ after) q =
  match written to after q with
  | Some text => Some text
  | None => written to before q
  end.
Proof.
  induction before as [|[nm text] before IH]; simpl.
  - now destruct (written to after q).
  - rewrite IH. now destruct (written to after q).
Qed.

(** The entry written last to its target is the one found there. *)
Lemma written_last to before nm text after :
  (forall nm' text', In (nm', text') after -> target to nm <> target to nm') ->
  written to (before ++ (nm, text) :: after) (target to nm) = Some text.
Proof.
  intro H. rewrite written_app. simpl.
  rewrite (written_none to after (target to nm) H).
  now destruct (path_eq_dec (target to nm) (target to nm)).
Qed.

(** The run with a directory as source and a destination: when every
    candidate loads, the destination can be created and no output path
    is a directory, the run ends well, the destination and what is above
    it are directories, every output path holds the text written there
    last, and no other path has changed. *)
Lemma generate_yaml_to_directory fs0 out from_ to recursive candidates :
  is_dir fs0 from_ = true ->
  expand_paths fs0 from_ recursive = Ok candidates ->
  (forall p, In p candidates -> loadable p = true) ->
  creatable fs0 to = true ->
  (forall p, In p candidates -> contributes p = true ->
     is_dir fs0 (target to (name p)) = false) ->
  exists fs1,
    generate_yaml from_ (Some to) recursive (World fs0 out) = (Ok tt, World fs1 out) /\
    forall q,
      stat fs1 q =
      match written to (entries_of (sorted candidates)) q with
      | Some text => Some (IsFile text)
      | None => if is_prefix q to then Some IsDir else stat fs0 q
      end.
Proof.
  intros Hdir He Hload Hto Htargets.
  assert (collect (sorted candidates) [] = Ok (entries_of (sorted candidates))) as Hc.
  { rewrite collect_ok; [reflexivity|]. intros p Hp. apply Hload. now apply sorted_In. }
  rewrite (generate_yaml_route _ _ _ _ _ _ _ He Hc), Hdir, exists_not_dir_is_file.
  pose proof (proj1 (creatable_spec fs0 to) Hto) as Hfiles.
  rewrite (Hfiles to (is_prefix_refl to)).
  destruct (proj1 (makedirs_ok fs0 to) Hto) as [fs' Hm].
  pose proof (stat_makedirs _ _ _ Hm) as Hs.
  destruct (write_outputs_spec to out (entries_of (sorted candidates)) fs')
    as [fs1 [Hrun Hstat]].
  - unfold is_dir. now rewrite Hs, is_prefix_refl.
  - intros nm text Hin. apply entries_of_In in Hin.
    destruct Hin as [p [Hp [Hcp [-> _]]]].
    apply (proj1 (sorted_In _ _)) in Hp. split.
    + apply suffix_py_name. exact (expand_paths_suffix _ _ _ _ Hdir He p Hp).
    + unfold is_dir. rewrite Hs. unfold target at 1. rewrite is_prefix_joinpath.
      exact (Htargets p Hp Hcp).
  - exists fs1. split.
    + unfold bind, os_makedirs. cbn [fs stdout]. rewrite Hm. exact Hrun.
    + intro q. rewrite Hstat, Hs. reflexivity.
Qed.

End DirectoryRun.

(** ** The order on paths *)

Lemma ascii_compare_trans a b c :
  Ascii.compare a b = Lt -> Ascii.compare b c = Lt -> Ascii.compare a c = Lt.
Proof.
  unfold Ascii.compare. rewrite !N.compare_lt_iff. apply N.lt_trans.
Qed.

Lemma ascii_compare_refl a : Ascii.compare a a = Eq.
Proof. unfold Ascii.compare. apply N.compare_refl. Qed.

Lemma string_compare_refl s : String.compare s s = Eq.
Proof.
  induction s as [|a s IH]; simpl; [reflexivity|].
  now rewrite ascii_compare_refl.
Qed.

Lemma string_compare_trans s1 : forall s2 s3,
  String.compare s1 s2 = Lt -> String.compare s2 s3 = Lt ->
  String.compare s1 s3 = Lt.
Proof.
  induction s1 as [|a s1 IH]; intros [|b s2] [|c s3]; simpl; try congruence.
  destruct (Ascii.compare a b) eqn:Hab; try discriminate;
    destruct (Ascii.compare b c) eqn:Hbc; try discriminate; intros H1 H2.
  - apply Ascii.compare_eq_iff in Hab, Hbc. subst.
    rewrite ascii_compare_refl.
    now apply (IH s2).
  - apply Ascii.compare_eq_iff in Hab. subst. now rewrite Hbc.
  - apply Ascii.compare_eq_iff in Hbc. subst. now rewrite Hab.
  - now rewrite (ascii_compare_trans a b c).
Qed.

Lemma path_leb_trans p : forall q r,
  path_leb p q = true -> path_leb q r = true -> path_leb p r = true.
Proof.
  induction p as [|a p IH]; intros [|b q] [|c r]; simpl; try congruence.
  destruct (String.compare a b) eqn:Hab; try discriminate;
    destruct (String.compare b c) eqn:Hbc; try discriminate; intros H1 H2.
  - apply String.compare_eq_iff in Hab, Hbc. subst.
    rewrite string_compare_refl.
    now apply (IH q).
  - apply String.compare_eq_iff in Hab. subst. now rewrite Hbc.
  - apply String.compare_eq_iff in Hbc. subst. now rewrite Hab.
  - now rewrite (string_compare_trans a b c).
Qed.

Lemma path_leb_antisym p : forall q,
  path_leb p q = true -> path_leb q p = true -> p = q.
Proof.
  induction p as [|a p IH]; intros [|b q]; simpl; try congruence.
  rewrite (String.compare_antisym b a).
  destruct (String.compare a b) eqn:Hab; simpl; try discriminate.
  apply String.compare_eq_iff in Hab. subst. intros H1 H2. f_equal. now apply IH.
Qed.

(** ** The properties of the command *)

Lemma sorted_singleton p : sorted [p] = [p].
Proof. reflexivity. Qed.

(** [sorted] puts every path before all that are greater. *)
Lemma sorted_StronglySorted candidates :
  StronglySorted (fun p q => path_leb p q = true) (sorted candidates).
Proof.
  apply (PathSort.StronglySorted_sort candidates).
  intros p q r. apply path_leb_trans.
Qed.

Section Claims.

Context {R : Runtime}.

Lemma contributes_load p :
  contributes p = true <->
  exists w ws, load_workflows_from_module p = Ok (w :: ws).
Proof.
  unfold contributes, workflows_at.
  destruct (load_workflows_from_module p) as [[|w ws]|e]; split;
    try discriminate; eauto; intros [w' [ws' E]]; discriminate.
Qed.

Lemma load_nothing p :
  load_workflows_from_module p = Ok [] ->
  loadable p = true /\ contributes p = false.
Proof.
  intro E. unfold loadable, contributes, workflows_at. now rewrite E.
Qed.

Lemma map_snd_entries_of paths :
  map snd (entries_of paths) = map serialized (filter contributes paths).
Proof.
  unfold entries_of. rewrite map_map. reflexivity.
Qed.

(** The run that prints: every candidate loads, and the joined
    documents of those that define a workflow go to the standard
    output, in sorted order. *)
Lemma generate_yaml_to_stdout fs0 out from_ recursive candidates :
  expand_paths fs0 from_ recursive = Ok candidates ->
  (forall p, In p candidates -> loadable p = true) ->
  generate_yaml from_ None recursive (World fs0 out) =
  (Ok tt,
   World fs0
     (String.append out
        (String.concat separator
           (map serialized (filter contributes (sorted candidates)))))).
Proof.
  intros He Hload.
  assert (collect (sorted candidates) [] = Ok (entries_of (sorted candidates))) as Hc.
  { rewrite collect_ok; [reflexivity|]. intros p Hp. apply Hload.
    now apply (proj1 (sorted_In _ _)). }
  rewrite (generate_yaml_route _ _ _ _ _ _ _ He Hc), map_snd_entries_of.
  reflexivity.
Qed.

(** C1.  Without a destination, when every candidate file loads, the
    text written to the standard output is the serialized documents of
    the files that define a workflow (each the documents of the file's
    workflows, joined the same way), joined by a newline, three dashes
    and a newline, the files taken in sorted order; nothing else
    changes.  For a source that is one file defining two workflows the
    text is the first document, a line of three dashes, the second
    document. *)
Theorem stdout_joins_documents fs0 out from_ recursive candidates :
  expand_paths fs0 from_ recursive = Ok candidates ->
  (forall p, In p candidates -> loadable p = true) ->
  separator = "
---
" /\
  StronglySorted (fun p q => path_leb p q = true) (sorted candidates) /\
  Permutation candidates (sorted candidates) /\
  generate_yaml from_ None recursive (World fs0 out) =
  (Ok tt,
   World fs0
     (String.append out
        (String.concat "
---
"
           (map (fun p => String.concat "
---
" (map to_yaml (workflows_at p)))
                (filter contributes (sorted candidates)))))) /\
  (is_dir fs0 from_ = false ->
   forall w1 w2,
     load_workflows_from_module from_ = Ok [w1; w2] ->
     generate_yaml from_ None recursive (World fs0 out) =
     (Ok tt,
      World fs0
        (String.append out
           (String.append (to_yaml w1) (String.append "
---
" (to_yaml w2)))))).
Proof.
  intros He Hload. split; [reflexivity|].
  change "
---
" with separator.
  change (fun p => String.concat separator (map to_yaml (workflows_at p)))
    with serialized.
  split; [apply sorted_StronglySorted|]. split; [|split].
  - apply PathSort.Permuted_sort.
  - now apply generate_yaml_to_stdout.
  - intros Hdir w1 w2 Hl.
    rewrite (generate_yaml_to_stdout _ _ _ _ _ He Hload).
    rewrite (expand_paths_not_dir fs0 from_ recursive Hdir) in He.
    inversion He; subst candidates. rewrite sorted_singleton.
    assert (contributes from_ = true) as Hc
        by (unfold contributes, workflows_at; now rewrite Hl).
    assert (serialized from_ =
            String.append (to_yaml w1) (String.append separator (to_yaml w2))) as Hs
        by (unfold serialized, workflows_at; now rewrite Hl).
    cbn [filter]. rewrite Hc. cbn [map]. rewrite Hs. reflexivity.
Qed.

(** C2.  A candidate file that loads with no workflow adds no entry to
    the output list: the loop leaves the list as it finds it, every
    entry of the list comes from another file, one that defines a
    workflow, the file's document is no part of what is printed, and
    with a directory as destination the output path of the file is left
    as it was unless another file writes there. *)
Theorem file_without_workflow_skipped fs0 out from_ recursive candidates p :
  expand_paths fs0 from_ recursive = Ok candidates ->
  (forall q, In q candidates -> loadable q = true) ->
  In p candidates ->
  load_workflows_from_module p = Ok [] ->
  (forall before after acc,
     collect (before ++ p :: after) acc = collect (before ++ after) acc) /\
  (exists path_to_output,
     collect (sorted candidates) [] = Ok path_to_output /\
     forall nm text,
       In (nm, text) path_to_output ->
       exists q w ws,
         In q candidates /\ q <> p /\
         load_workflows_from_module q = Ok (w :: ws) /\
         nm = name q /\ text = serialized q) /\
  (~ In p (filter contributes (sorted candidates)) /\
   generate_yaml from_ None recursive (World fs0 out) =
   (Ok tt,
    World fs0
      (String.append out
         (String.concat separator
            (map serialized (filter contributes (sorted candidates))))))) /\
  (forall to,
     is_dir fs0 from_ = true ->
     creatable fs0 to = true ->
     (forall q, In q candidates -> contributes q = true ->
        is_dir fs0 (target to (name q)) = false) ->
     (forall q, In q candidates -> contributes q = true -> name q <> name p) ->
     exists fs1,
       generate_yaml from_ (Some to) recursive (World fs0 out) =
       (Ok tt, World fs1 out) /\
       stat fs1 (target to (name p)) = stat fs0 (target to (name p))).
Proof.
  intros He Hload Hp Hnone.
  destruct (load_nothing p Hnone) as [_ Hcp].
  split; [|split; [|split]].
  - induction before as [|q before IH]; intros after acc.
    + simpl app. rewrite collect_cons, Hnone. reflexivity.
    + simpl app. rewrite !collect_cons.
      destruct (load_workflows_from_module q) as [[|w ws]|e]; cbn [rbind map];
        auto.
  - exists (entries_of (sorted candidates)). split.
    + rewrite collect_ok; [reflexivity|]. intros q Hq. apply Hload.
      now apply (proj1 (sorted_In _ _)).
    + intros nm text Hin. apply entries_of_In in Hin.
      destruct Hin as [q [Hq [Hcq [-> ->]]]].
      apply (proj1 (sorted_In _ _)) in Hq.
      destruct (proj1 (contributes_load q) Hcq) as [w [ws E]].
      exists q, w, ws. repeat split; try assumption. congruence.
  - split; [|now apply generate_yaml_to_stdout].
    rewrite filter_In. intros [_ H]. congruence.
  - intros to Hdir Hto Htargets Hnames.
    destruct (generate_yaml_to_directory fs0 out from_ to recursive candidates
                Hdir He Hload Hto Htargets) as [fs1 [Hrun Hstat]].
    exists fs1. split; [assumption|]. rewrite Hstat.
    rewrite written_none.
    + unfold target at 1. now rewrite is_prefix_joinpath.
    + intros nm text Hin E. apply entries_of_In in Hin.
      destruct Hin as [q [Hq [Hcq [-> _]]]].
      apply (proj1 (sorted_In _ _)) in Hq.
      apply (Hnames q Hq Hcq). symmetry. revert E. apply target_inj.
      * exact (expand_paths_suffix _ _ _ _ Hdir He p Hp).
      * exact (expand_paths_suffix _ _ _ _ Hdir He q Hq).
Qed.

(** C3.  A source that is a single file defining no workflow, written
    to a destination: the output list is empty and the assertion on its
    length fails; nothing is written. *)
Theorem single_file_without_workflow_fails fs0 out from_ to recursive :
  is_dir fs0 from_ = false ->
  load_workflows_from_module from_ = Ok [] ->
  generate_yaml from_ (Some to) recursive (World fs0 out) =
  (Raise AssertionError, World fs0 out).
Proof.
  intros Hdir Hnone.
  pose proof (expand_paths_not_dir fs0 from_ recursive Hdir) as He.
  assert (collect (sorted [from_]) [] = Ok []) as Hc.
  { rewrite sorted_singleton, collect_cons, Hnone. reflexivity. }
  rewrite (generate_yaml_route _ _ _ _ _ _ _ He Hc), Hdir. reflexivity.
Qed.

(** A single file that defines a workflow is written to the
    destination path itself. *)
Lemma single_file_written fs0 out from_ to recursive w ws :
  is_dir fs0 from_ = false ->
  load_workflows_from_module from_ = Ok (w :: ws) ->
  generate_yaml from_ (Some to) recursive (World fs0 out) =
  path_write_text to (serialized from_) (World fs0 out).
Proof.
  intros Hdir Hload.
  pose proof (expand_paths_not_dir fs0 from_ recursive Hdir) as He.
  assert (collect (sorted [from_]) [] = Ok [entry_of from_]) as Hc.
  { rewrite sorted_singleton, collect_cons, Hload.
    unfold entry_of, serialized, workflows_at. rewrite Hload. reflexivity. }
  rewrite (generate_yaml_route _ _ _ _ _ _ _ He Hc), Hdir. reflexivity.
Qed.

(** A single file that defines a workflow, with a directory as
    destination: the write to the destination path raises, and nothing
    is written. *)
Lemma single_file_to_directory fs0 out from_ to recursive w ws :
  is_dir fs0 from_ = false ->
  load_workflows_from_module from_ = Ok (w :: ws) ->
  is_dir fs0 to = true ->
  generate_yaml from_ (Some to) recursive (World fs0 out) =
  (Raise IsADirectoryError, World fs0 out).
Proof.
  intros Hdir Hload Hto.
  rewrite (single_file_written fs0 out from_ to recursive w ws Hdir Hload).
  unfold path_write_text. cbn [fs]. now rewrite write_text_to_directory.
Qed.

(** C4, amended.  A directory as source and an existing regular file
    as destination: the run fails, and the world is then as it was,
    nothing created, written or printed; when every candidate loads the
    failure is the parameter error (a module that raises while it is
    loaded ends the run with its own exception, before the destination
    is looked at). *)
Theorem file_destination_rejected fs0 out from_ to recursive candidates :
  is_dir fs0 from_ = true ->
  is_file fs0 to = true ->
  expand_paths fs0 from_ recursive = Ok candidates ->
  (exists e,
     generate_yaml from_ (Some to) recursive (World fs0 out) =
     (Raise e, World fs0 out)) /\
  ((forall p, In p candidates -> loadable p = true) ->
   generate_yaml from_ (Some to) recursive (World fs0 out) =
   (Raise bad_parameter, World fs0 out)).
Proof.
  intros Hdir Hfile He.
  assert (forall entries,
            collect (sorted candidates) [] = Ok entries ->
            generate_yaml from_ (Some to) recursive (World fs0 out) =
            (Raise bad_parameter, World fs0 out)) as Hrejected.
  { intros entries Hc.
    rewrite (generate_yaml_route _ _ _ _ _ _ _ He Hc), Hdir, exists_not_dir_is_file.
    now rewrite Hfile. }
  split.
  - destruct (collect (sorted candidates) []) as [entries|e] eqn:Hc.
    + exists bad_parameter. now apply (Hrejected entries).
    + exists e. now apply (generate_yaml_load_error _ _ _ _ _ candidates).
  - intro Hload. apply (Hrejected (entries_of (sorted candidates))).
    rewrite collect_ok; [reflexivity|]. intros p Hp. apply Hload.
    now apply (proj1 (sorted_In _ _)).
Qed.

End Claims.

Section DirectoryClaims.

Context {R : Runtime}.

Lemma entries_of_app before after :
  entries_of (before ++ after) = entries_of before ++ entries_of after.
Proof.
  unfold entries_of. now rewrite filter_app, map_app.
Qed.

Lemma written_prefix to entries q :
  is_prefix q to = true -> written to entries q = None.
Proof.
  intro Hq. apply written_none. intros nm text _ ->.
  unfold target in Hq. now rewrite is_prefix_joinpath in Hq.
Qed.

(** C5, amended.  With a directory as source, a destination that can be
    created, candidates that load and no output path that is a
    directory, the run creates the destination and what is missing
    above it and writes every entry of the output list to the
    destination joined with the entry's file name, [.yaml] in place of
    its suffix: the path holds the entry's text afterwards, whatever it
    held before, unless a later entry has the same file name.  No other
    path changes. *)
Theorem directory_source_writes_entries fs0 out from_ to recursive candidates :
  is_dir fs0 from_ = true ->
  expand_paths fs0 from_ recursive = Ok candidates ->
  (forall p, In p candidates -> loadable p = true) ->
  creatable fs0 to = true ->
  (forall p, In p candidates -> contributes p = true ->
     is_dir fs0 (target to (name p)) = false) ->
  exists path_to_output fs1,
    collect (sorted candidates) [] = Ok path_to_output /\
    generate_yaml from_ (Some to) recursive (World fs0 out) = (Ok tt, World fs1 out) /\
    (forall q, is_prefix q to = true -> is_dir fs1 q = true) /\
    (forall before nm text after,
       path_to_output = before ++ (nm, text) :: after ->
       with_suffix (joinpath to nm) ".yaml" = Ok (target to nm) /\
       ((forall nm' text', In (nm', text') after -> nm' <> nm) ->
        stat fs1 (target to nm) = Some (IsFile text))) /\
    (forall q,
       is_prefix q to = false ->
       (forall nm text, In (nm, text) path_to_output -> q <> target to nm) ->
       stat fs1 q = stat fs0 q).
Proof.
  intros Hdir He Hload Hto Htargets.
  destruct (generate_yaml_to_directory fs0 out from_ to recursive candidates
              Hdir He Hload Hto Htargets) as [fs1 [Hrun Hstat]].
  assert (forall nm text, In (nm, text) (entries_of (sorted candidates)) ->
          name_suffix nm = ".py") as Hpy.
  { intros nm text Hin. apply entries_of_In in Hin.
    destruct Hin as [p [Hp [_ [-> _]]]]. apply (proj1 (sorted_In _ _)) in Hp.
    exact (expand_paths_suffix _ _ _ _ Hdir He p Hp). }
  exists (entries_of (sorted candidates)), fs1. split; [|split; [|split; [|split]]].
  - rewrite collect_ok; [reflexivity|]. intros p Hp. apply Hload.
    now apply (proj1 (sorted_In _ _)).
  - exact Hrun.
  - intros q Hq. unfold is_dir. now rewrite Hstat, written_prefix, Hq.
  - intros before nm text after E.
    assert (name_suffix nm = ".py") as Hnm.
    { apply (Hpy nm text). rewrite E. apply in_elt. }
    split.
    + apply with_suffix_joinpath. intros ->. discriminate.
    + intro Hlast. rewrite Hstat, E, written_last; [reflexivity|].
      intros nm' text' Hin Et. apply (Hlast nm' text' Hin). symmetry.
      revert Et. apply target_inj; [assumption|].
      apply (Hpy nm' text'). rewrite E. apply in_or_app. right. now right.
  - intros q Hq Hnot. rewrite Hstat, (written_none _ _ _ Hnot), Hq. reflexivity.
Qed.

(** C9.  Output paths come from file names alone.  With a directory as
    source, recursion on and a destination directory, two candidates
    that have the same file name and define workflows both have an
    entry in the output list, in sorted order, and the same output
    path; after the run the path holds the document of the one that
    comes later (the last of that name to define a workflow): it has
    replaced the earlier one's, and the run ends well. *)
Theorem same_name_overwritten fs0 out from_ to candidates before p1 between p2 after :
  is_dir fs0 from_ = true ->
  expand_paths fs0 from_ true = Ok candidates ->
  (forall p, In p candidates -> loadable p = true) ->
  creatable fs0 to = true ->
  (forall p, In p candidates -> contributes p = true ->
     is_dir fs0 (target to (name p)) = false) ->
  sorted candidates = before ++ p1 :: between ++ p2 :: after ->
  name p1 = name p2 ->
  contributes p1 = true ->
  contributes p2 = true ->
  (forall p, In p after -> contributes p = true -> name p <> name p2) ->
  exists fs1 full_path earlier middle later,
    collect (sorted candidates) [] =
    Ok (earlier ++ entry_of p1 :: middle ++ entry_of p2 :: later) /\
    generate_yaml from_ (Some to) true (World fs0 out) = (Ok tt, World fs1 out) /\
    with_suffix (joinpath to (name p1)) ".yaml" = Ok full_path /\
    with_suffix (joinpath to (name p2)) ".yaml" = Ok full_path /\
    full_path = joinpath to (String.append (stem p2) ".yaml") /\
    stat fs1 full_path = Some (IsFile (serialized p2)).
Proof.
  intros Hdir He Hload Hto Htargets Hsplit Hname Hc1 Hc2 Hafter.
  destruct (generate_yaml_to_directory fs0 out from_ to true candidates
              Hdir He Hload Hto Htargets) as [fs1 [Hrun Hstat]].
  assert (forall p, In p (sorted candidates) -> suffix p = ".py") as Hpy.
  { intros p Hp. apply (proj1 (sorted_In _ _)) in Hp.
    exact (expand_paths_suffix _ _ _ _ Hdir He p Hp). }
  assert (In p2 (sorted candidates)) as Hp2.
  { rewrite Hsplit. apply in_or_app. right. right. apply in_elt. }
  exists fs1, (target to (name p2)),
    (entries_of before), (entries_of between), (entries_of after).
  split.
  { rewrite collect_ok.
    - rewrite Hsplit, entries_of_app, entries_of_cons, Hc1, entries_of_app,
        entries_of_cons, Hc2. reflexivity.
    - intros p Hp. apply Hload. now apply (proj1 (sorted_In _ _)). }
  split; [exact Hrun|].
  split; [|split; [|split]].
  - rewrite Hname. apply with_suffix_joinpath, suffix_py_name. now apply Hpy.
  - apply with_suffix_joinpath, suffix_py_name. now apply Hpy.
  - reflexivity.
  - rewrite Hstat, Hsplit.
    change (before ++ p1 :: between ++ p2 :: after)
      with (before ++ (p1 :: between) ++ p2 :: after).
    rewrite app_assoc, entries_of_app, entries_of_cons, Hc2.
    unfold entry_of at 1. rewrite written_last; [reflexivity|].
    intros nm text Hin Et. apply entries_of_In in Hin.
    destruct Hin as [p [Hp [Hcp [-> _]]]].
    apply (Hafter p Hp Hcp). symmetry. revert Et. apply target_inj.
    + now apply Hpy.
    + apply Hpy. rewrite Hsplit. apply in_or_app. right. right.
      apply in_or_app. right. now right.
Qed.


End DirectoryClaims.

(** ** The command on the small installation *)

Module DemoRuns.

Import Demo.

Ltac each_candidate :=
  let q := fresh "q" in
  let Hq := fresh "Hq" in
  intros q Hq; simpl in Hq;
  repeat (destruct Hq as [<- | Hq]); try contradiction.

Example wf_flat_paths : expand_paths tree ["wf"] false = Ok flat_candidates.
Proof. reflexivity. Qed.

Example wf_recursive_paths : expand_paths tree ["wf"] true = Ok deep_candidates.
Proof. reflexivity. Qed.

Example deep_candidates_sorted : sorted deep_candidates = deep_candidates.
Proof. reflexivity. Qed.

(** One file, two workflows, no destination: the two documents with
    the separator between them. *)
Lemma solo_on_stdout :
  is_dir tree ["solo.py"] = false /\
  load_workflows_from_module (R := runtime) ["solo.py"] = Ok ["X"; "Y"] /\
  generate_yaml (R := runtime) ["solo.py"] None false start =
  (Ok tt, World tree "X
---
Y").
Proof.
  split; [reflexivity|]. split; [reflexivity|].
  destruct (stdout_joins_documents (R := runtime) tree "" ["solo.py"] false [["solo.py"]])
    as [_ [_ [_ [_ E]]]].
  - reflexivity.
  - each_candidate. reflexivity.
  - exact (E eq_refl "X" "Y" eq_refl).
Defined.

(** A directory without a destination: [b.py] defines no workflow and
    leaves no trace. *)
Example directory_on_stdout :
  generate_yaml (R := runtime) ["wf"] None false start =
  (Ok tt, World tree (String.append "A" (String.append separator "C"))).
Proof. reflexivity. Qed.

Lemma b_py_skipped :
  In ["wf"; "b.py"] flat_candidates /\
  load_workflows_from_module (R := runtime) ["wf"; "b.py"] = Ok [] /\
  collect (R := runtime) (sorted flat_candidates) [] = Ok [("a.py", "A"); ("c.py", "C")] /\
  exists fs1,
    generate_yaml (R := runtime) ["wf"] (Some ["out"]) false start =
    (Ok tt, World fs1 "") /\
    stat fs1 ["out"; "b.yaml"] = None.
Proof.
  split; [simpl; auto|]. split; [reflexivity|]. split; [reflexivity|].
  destruct (file_without_workflow_skipped (R := runtime) tree "" ["wf"] false
              flat_candidates ["wf"; "b.py"]) as [_ [_ [_ H]]].
  - reflexivity.
  - each_candidate; reflexivity.
  - simpl. auto.
  - reflexivity.
  - destruct (H ["out"]) as [fs1 [Hrun Hstat]].
    + reflexivity.
    + reflexivity.
    + each_candidate; intros _; reflexivity.
    + each_candidate; intros Hc E; vm_compute in Hc, E; discriminate.
    + exists fs1. split; [exact Hrun | exact Hstat].
Defined.

Lemma empty_py_fails :
  is_dir tree ["empty.py"] = false /\
  load_workflows_from_module (R := runtime) ["empty.py"] = Ok [] /\
  generate_yaml (R := runtime) ["empty.py"] (Some ["out.yaml"]) false start =
  (Raise AssertionError, start).
Proof.
  split; [reflexivity|]. split; [reflexivity|].
  apply (single_file_without_workflow_fails (R := runtime)); reflexivity.
Defined.

Lemma notes_txt_rejected :
  is_dir tree ["wf"] = true /\
  is_file tree ["notes.txt"] = true /\
  generate_yaml (R := runtime) ["wf"] (Some ["notes.txt"]) false start =
  (Raise bad_parameter, start).
Proof.
  split; [reflexivity|]. split; [reflexivity|].
  destruct (file_destination_rejected (R := runtime) tree "" ["wf"] ["notes.txt"] false
              flat_candidates eq_refl eq_refl eq_refl) as [_ H].
  apply H. each_candidate; reflexivity.
Defined.

(** C5, as stated, fails here: the destination is a directory and the
    source a file that loads with its workflows; the text goes to the
    destination path itself, which raises, and nothing is written
    below the directory. *)
Lemma file_source_directory_destination :
  is_dir tree ["dist"] = true /\
  is_dir tree ["solo.py"] = false /\
  load_workflows_from_module (R := runtime) ["solo.py"] = Ok ["X"; "Y"] /\
  generate_yaml (R := runtime) ["solo.py"] (Some ["dist"]) false start =
  (Raise IsADirectoryError, start) /\
  stat tree ["dist"; "solo.yaml"] = None.
Proof. repeat split; reflexivity. Qed.

Lemma wf_to_out :
  is_dir tree ["wf"] = true /\
  creatable tree ["out"] = true /\
  exists fs1,
    generate_yaml (R := runtime) ["wf"] (Some ["out"]) false start =
    (Ok tt, World fs1 "") /\
    is_dir fs1 ["out"] = true /\
    stat fs1 ["out"; "a.yaml"] = Some (IsFile "A") /\
    stat fs1 ["out"; "c.yaml"] = Some (IsFile "C").
Proof.
  split; [reflexivity|]. split; [reflexivity|].
  destruct (directory_source_writes_entries (R := runtime) tree "" ["wf"] ["out"] false
              flat_candidates) as [entries [fs1 [Hc [Hrun [Hdirs [Hwritten _]]]]]].
  - reflexivity.
  - reflexivity.
  - each_candidate; reflexivity.
  - reflexivity.
  - each_candidate; intros _; reflexivity.
  - vm_compute in Hc. inversion Hc; subst entries. clear Hc.
    exists fs1. split; [exact Hrun|]. split; [|split].
    + apply Hdirs. reflexivity.
    + apply (Hwritten [] "a.py" "A" [("c.py", "C")] eq_refl).
      intros nm' text' [E | []]. inversion E. discriminate.
    + apply (Hwritten [("a.py", "A")] "c.py" "C" [] eq_refl).
      intros nm' text' [].
Defined.

(** The destination holds exactly the two files. *)
Example wf_to_out_directory :
  lookup (fs (snd (generate_yaml (R := runtime) ["wf"] (Some ["out"]) false start)))
         ["out"] =
  Some (Dir [("a.yaml", File "A"); ("c.yaml", File "C")]).
Proof. reflexivity. Qed.

Lemma wf_flat :
  well_formed tree = true /\
  is_dir tree ["wf"] = true /\
  exists paths,
    expand_paths tree ["wf"] false = Ok paths /\
    NoDup paths /\
    forall p,
      In p paths <->
      exists file_name,
        p = joinpath ["wf"] file_name /\
        is_file tree p = true /\ suffix p = ".py".
Proof.
  split; [reflexivity|]. split; [reflexivity|].
  apply expand_paths_flat; reflexivity.
Defined.

Lemma wf_recursive :
  well_formed tree = true /\
  is_dir tree ["wf"] = true /\
  exists paths,
    expand_paths tree ["wf"] true = Ok paths /\
    forall p,
      In p paths <->
      (exists rel, p = ["wf"] ++ rel) /\
      is_file tree p = true /\ suffix p = ".py".
Proof.
  split; [reflexivity|]. split; [reflexivity|].
  apply expand_paths_recursive; reflexivity.
Defined.

Lemma notes_txt_alone :
  is_dir tree ["notes.txt"] = false /\
  suffix ["notes.txt"] = ".txt" /\
  expand_paths tree ["notes.txt"] true = Ok [["notes.txt"]].
Proof.
  split; [reflexivity|]. split; [reflexivity|].
  apply (expand_paths_single_file tree ["notes.txt"] true). reflexivity.
Defined.

Lemma nightly_overwrites :
  is_dir tree ["wf"] = true /\
  is_dir tree ["dist"] = true /\
  name ["wf"; "a.py"] = name ["wf"; "nightly"; "a.py"] /\
  exists fs1,
    generate_yaml (R := runtime) ["wf"] (Some ["dist"]) true start =
    (Ok tt, World fs1 "") /\
    with_suffix (joinpath ["dist"] (name ["wf"; "a.py"])) ".yaml" =
    Ok ["dist"; "a.yaml"] /\
    with_suffix (joinpath ["dist"] (name ["wf"; "nightly"; "a.py"])) ".yaml" =
    Ok ["dist"; "a.yaml"] /\
    stat fs1 ["dist"; "a.yaml"] = Some (IsFile "N").
Proof.
  split; [reflexivity|]. split; [reflexivity|]. split; [reflexivity|].
  destruct (same_name_overwritten (R := runtime) tree "" ["wf"] ["dist"] deep_candidates
              [] ["wf"; "a.py"] [["wf"; "b.py"]; ["wf"; "c.py"]]
              ["wf"; "nightly"; "a.py"] [])
    as [fs1 [full_path [earlier [middle [later [_ [Hrun [H1 [H2 [Hp Hstat]]]]]]]]]];
    try reflexivity.
  - each_candidate; reflexivity.
  - intros p [].
  - vm_compute in Hp. subst full_path.
    exists fs1. repeat split; assumption.
Defined.


(** C4, as stated, fails here: the source is a directory, the
    destination an existing regular file, and the module of the one
    candidate raises while it is loaded; the run ends with that
    exception, not with the parameter error. *)
Lemma broken_before_the_check :
  is_dir tree ["broken"] = true /\
  is_file tree ["notes.txt"] = true /\
  expand_paths tree ["broken"] false = Ok [["broken"; "bad.py"]] /\
  load_workflows_from_module (R := runtime) ["broken"; "bad.py"] =
  Raise (Exception "division by zero") /\
  generate_yaml (R := runtime) ["broken"] (Some ["notes.txt"]) false start =
  (Raise (Exception "division by zero"), start) /\
  generate_yaml (R := runtime) ["broken"] (Some ["notes.txt"]) false start <>
  (Raise bad_parameter, start).
Proof. repeat split; try reflexivity. discriminate. Qed.


(** A destination below a regular file cannot be created. *)
Example destination_below_a_file :
  path_exists tree ["notes.txt"; "out"] = false /\
  creatable tree ["notes.txt"; "out"] = false /\
  generate_yaml (R := runtime) ["wf"] (Some ["notes.txt"; "out"]) false start =
  (Raise NotADirectoryError, start).
Proof. repeat split; reflexivity. Qed.

(** A module that raises ends the run before the destination is looked
    at. *)
Example broken_module :
  generate_yaml (R := runtime) ["broken"] (Some ["notes.txt"]) false start =
  (Raise (Exception "division by zero"), start).
Proof. reflexivity. Qed.

End DemoRuns.

(** * More about the command *)

(** ** Loading *)

Section Loading.

Context {R : Runtime}.

(** The loop over the candidates stops at the first that fails to
    load. *)
Lemma collect_raise before p after e : forall acc,
  (forall q, In q before -> loadable q = true) ->
  load_workflows_from_module p = Raise e ->
  collect (before ++ p :: after) acc = Raise e.
Proof.
  induction before as [|q before IH]; intros acc Hall Hp.
  - simpl app. rewrite collect_cons, Hp. reflexivity.
  - simpl app. rewrite collect_cons.
    pose proof (Hall q (or_introl eq_refl)) as Hq. unfold loadable in Hq.
    destruct (load_workflows_from_module q) as [[|w ws]|e']; [| |discriminate];
      cbn [rbind map]; apply IH; auto; intros q' Hq'; apply Hall; now right.
Qed.

(** X1.  When a candidate fails to load, the run ends with the
    exception of the first such candidate in sorted order, whatever the
    destination; nothing has been created, written or printed, also
    not for the candidates that loaded before it. *)
Theorem load_error_aborts_run fs0 out from_ to recursive candidates before p after e :
  expand_paths fs0 from_ recursive = Ok candidates ->
  sorted candidates = before ++ p :: after ->
  (forall q, In q before -> loadable q = true) ->
  load_workflows_from_module p = Raise e ->
  generate_yaml from_ to recursive (World fs0 out) = (Raise e, World fs0 out).
Proof.
  intros He Hsplit Hbefore Hp.
  apply (generate_yaml_load_error _ _ _ _ _ candidates); [assumption|].
  rewrite Hsplit. now apply collect_raise.
Qed.

End Loading.

(** ** What a run touches *)

Lemma append_empty s : String.append s "" = s.
Proof.
  induction s as [|a s IH]; simpl; [reflexivity | now rewrite IH].
Qed.

Section Effects.

Context {R : Runtime}.

(** X4.  Without a destination, when no candidate defines a workflow
    (an empty directory, say) the run prints nothing and ends well;
    when exactly one does, its document is printed as it is, with no
    separator before or after. *)
Theorem stdout_without_separator fs0 out from_ recursive candidates :
  expand_paths fs0 from_ recursive = Ok candidates ->
  (forall p, In p candidates -> loadable p = true) ->
  (filter contributes (sorted candidates) = [] ->
   generate_yaml from_ None recursive (World fs0 out) = (Ok tt, World fs0 out)) /\
  (forall p,
     filter contributes (sorted candidates) = [p] ->
     generate_yaml from_ None recursive (World fs0 out) =
     (Ok tt, World fs0 (String.append out (serialized p)))).
Proof.
  intros He Hload. rewrite (generate_yaml_to_stdout _ _ _ _ _ He Hload). split.
  - intros ->. cbn [map String.concat]. now rewrite append_empty.
  - intros p ->. reflexivity.
Qed.

(** A destination that cannot be created and is no regular file lies
    below one. *)
Lemma makedirs_below_file p : forall tree,
  creatable tree p = false -> is_file tree p = false ->
  makedirs tree p = Raise NotADirectoryError.
Proof.
  induction p as [|c p IH]; intros [s|es]; simpl; try discriminate; auto.
  unfold is_file. rewrite stat_cons_Dir.
  destruct (get c es) as [child|]; [|discriminate].
  intros Hc Hf. now rewrite (IH child Hc Hf).
Qed.

(** X5.  With a directory as source and a destination below a regular
    file (the destination itself does not exist, so the check for an
    existing file passes), the run ends with the error of
    [os.makedirs], not with the parameter error, and nothing has been
    created or written. *)
Theorem destination_below_file_fails fs0 out from_ to recursive candidates :
  is_dir fs0 from_ = true ->
  expand_paths fs0 from_ recursive = Ok candidates ->
  (forall p, In p candidates -> loadable p = true) ->
  is_file fs0 to = false ->
  creatable fs0 to = false ->
  path_exists fs0 to = false /\
  generate_yaml from_ (Some to) recursive (World fs0 out) =
  (Raise NotADirectoryError, World fs0 out).
Proof.
  intros Hdir He Hload Hfile Hto.
  assert (collect (sorted candidates) [] = Ok (entries_of (sorted candidates))) as Hc.
  { rewrite collect_ok; [reflexivity|]. intros p Hp. apply Hload.
    now apply (proj1 (sorted_In _ _)). }
  pose proof (makedirs_below_file to fs0 Hto Hfile) as Hm.
  split.
  - unfold path_exists. destruct (stat fs0 to) as [[s|]|] eqn:Hs; [| |reflexivity].
    + unfold is_file in Hfile. rewrite Hs in Hfile. discriminate.
    + assert (creatable fs0 to = true) as Hyes; [|congruence].
      apply creatable_spec. intros q Hq.
      destruct (is_file fs0 q) eqn:Hfq; [|reflexivity].
      assert (exists fs', makedirs fs0 to = Ok fs') as [fs' Hok]; [|congruence].
      clear - Hs. revert fs0 Hs. unfold stat.
      induction to as [|c to IH]; intros [s|es]; simpl; try discriminate; eauto.
      destruct (get c es) as [child|]; [|discriminate].
      intro Hs. destruct (IH child Hs) as [child' ->]. simpl. eauto.
  - rewrite (generate_yaml_route _ _ _ _ _ _ _ He Hc), Hdir, exists_not_dir_is_file, Hfile.
    unfold bind, os_makedirs. cbn [fs stdout]. now rewrite Hm.
Qed.

End Effects.

(** ** One file to one destination *)

(** Writing a file succeeds exactly when the directory it goes to
    exists and the path is no directory. *)
Lemma write_text_ok_iff dir c text : forall tree,
  (exists tree', write_text tree (joinpath dir c) text = Ok tree') <->
  is_dir tree dir = true /\ is_dir tree (joinpath dir c) = false.
Proof.
  intro tree. split; [|intros [H1 H2]; now apply write_text_ok].
  revert tree. unfold joinpath, is_dir.
  induction dir as [|d dir IH]; intros [s|es]; simpl;
    try (intros [? ?]; discriminate).
  - rewrite stat_cons_Dir.
    destruct (get c es) as [[s|sub]|]; simpl; auto.
    intros [? ?]; discriminate.
  - rewrite !stat_cons_Dir.
    destruct (get d es) as [child|].
    + intros [tree' H]. apply IH.
      destruct (write_text child (dir ++ [c]) text); simpl in H; [eauto | discriminate].
    + destruct dir; simpl; intros [? ?]; discriminate.
Qed.

Section SingleFile.

Context {R : Runtime}.

(** X6.  A source that is one file defining a workflow, with a
    destination: the run ends well exactly when the directory of the
    destination exists (it is not created, unlike the destination of a
    directory source) and the destination is no directory; then the
    destination holds the file's document, whatever it held before, no
    other path has changed and nothing is printed. *)
Theorem single_file_destination fs0 out from_ dir c recursive w ws :
  is_dir fs0 from_ = false ->
  load_workflows_from_module from_ = Ok (w :: ws) ->
  ((exists fs1,
      generate_yaml from_ (Some (joinpath dir c)) recursive (World fs0 out) =
      (Ok tt, World fs1 out)) <->
   is_dir fs0 dir = true /\ is_dir fs0 (joinpath dir c) = false) /\
  (forall r w1,
     generate_yaml from_ (Some (joinpath dir c)) recursive (World fs0 out) = (r, w1) ->
     (r <> Ok tt -> w1 = World fs0 out) /\
     (r = Ok tt ->
      stdout w1 = out /\
      forall q,
        stat (fs w1) q =
        if path_eq_dec q (joinpath dir c) then Some (IsFile (serialized from_))
        else stat fs0 q)).
Proof.
  intros Hdir Hload.
  rewrite (single_file_written fs0 out from_ (joinpath dir c) recursive w ws Hdir Hload).
  unfold path_write_text. cbn [fs stdout].
  rewrite <- (write_text_ok_iff dir c (serialized from_) fs0).
  destruct (write_text fs0 (joinpath dir c) (serialized from_)) as [fs'|e] eqn:Hw.
  - split.
    + split; eauto.
    + intros r w1 E. inversion E; subst. split; [congruence|].
      intros _. split; [reflexivity|]. cbn [fs].
      exact (stat_write_text _ _ _ _ Hw).
  - split.
    + split; intros [fs1 H]; discriminate.
    + intros r w1 E. inversion E; subst. split; [reflexivity | discriminate].
Qed.

End SingleFile.

(** ** Several files to a destination directory *)

Lemma write_outputs_app to before after : forall w,
  write_outputs to (before ++ after) w =
  match write_outputs to before w with
  | (Ok _, w') => write_outputs to after w'
  | (Raise e, w') => (Raise e, w')
  end.
Proof.
  induction before as [|[nm text] before IH]; intro w; [reflexivity|].
  simpl app. cbn [write_outputs]. unfold bind, lift.
  destruct (with_suffix (joinpath to nm) ".yaml") as [full_path|e]; [|reflexivity].
  destruct (path_write_text full_path text w) as [[[]|e] w']; [|reflexivity].
  apply IH.
Qed.

Lemma written_Some to entries q text :
  written to entries q = Some text ->
  exists nm, In (nm, text) entries /\ q = target to nm.
Proof.
  induction entries as [|[nm t] rest IH]; simpl; [discriminate|].
  destruct (written to rest q) as [later|] eqn:E.
  - intro H. inversion H; subst. destruct (IH eq_refl) as [nm' [Hin Hq]]. eauto.
  - destruct (path_eq_dec q (target to nm)); [|discriminate].
    intro H. inversion H; subst. eauto.
Qed.

(** An entry that every entry of the same target agrees with is what
    the target holds. *)
Lemma written_agree to entries nm text :
  In (nm, text) entries ->
  (forall nm' text',
     In (nm', text') entries -> target to nm' = target to nm -> text' = text) ->
  written to entries (target to nm) = Some text.
Proof.
  induction entries as [|[nm0 text0] rest IH]; intros Hin Hall; [contradiction|].
  assert (In (nm, text) rest -> written to rest (target to nm) = Some text) as Hrest.
  { intro Hin'. apply (IH Hin'). intros nm' text' Hin'' Ht.
    apply (Hall nm' text'); [now right | assumption]. }
  clear IH. simpl.
  destruct (written to rest (target to nm)) as [later|] eqn:E.
  - apply written_Some in E. destruct E as [nm' [Hin' Ht]].
    f_equal. apply (Hall nm' later); [now right | now symmetry].
  - destruct Hin as [Heq | Hin].
    + inversion Heq; subst.
      now destruct (path_eq_dec (target to nm) (target to nm)).
    + specialize (Hrest Hin). discriminate.
Qed.

Lemma py_is_not_yaml : forall s1 s2,
  String.append s1 ".py" <> String.append s2 ".yaml".
Proof.
  induction s1 as [|a s1 IH]; intros [|b s2] E; simpl in E.
  - discriminate.
  - inversion E as [[Ha E']]. destruct s2 as [|b2 s2]; [discriminate|].
    inversion E' as [[Hb E'']]. destruct s2 as [|b3 s2]; [discriminate|].
    inversion E'' as [[Hc E3]]. destruct s2; discriminate.
  - inversion E as [[Ha E']]. destruct s1 as [|a2 s1]; [discriminate|].
    inversion E' as [[Hb E'']]. destruct s1 as [|a3 s1]; [discriminate|].
    inversion E'' as [[Hc E3]]. destruct s1 as [|a4 s1]; [discriminate|].
    inversion E3 as [[Hd E4]]. destruct s1 as [|a5 s1]; [discriminate|].
    inversion E4 as [[He E5]]. destruct s1; discriminate.
  - inversion E. eapply IH; eassumption.
Qed.

Lemma expand_paths_in_walk tree source recursive candidates :
  is_dir tree source = true ->
  expand_paths tree source recursive = Ok candidates ->
  forall p, In p candidates ->
  exists triple, In triple (os_walk tree source) /\ In p (python_files triple).
Proof.
  intros Hdir E p Hp. unfold expand_paths in E. rewrite Hdir in E. simpl in E.
  destruct recursive; simpl in E.
  - inversion E; subst. now apply in_flat_map in Hp.
  - destruct (os_walk tree source) as [|first rest]; simpl in E; inversion E; subst.
    rewrite app_nil_r in Hp. exists first. split; [now left | assumption].
Qed.

(** On a well-formed tree the candidates below a directory are regular
    files. *)
Lemma candidates_are_files tree source recursive candidates :
  well_formed tree = true ->
  is_dir tree source = true ->
  expand_paths tree source recursive = Ok candidates ->
  forall p, In p candidates -> is_file tree p = true.
Proof.
  intros Hwf Hdir E p Hp.
  destruct (expand_paths_in_walk _ _ _ _ Hdir E p Hp) as [[[dir ds] fs_] [Hw Hf]].
  pose proof Hdir as Hl. apply is_dir_lookup in Hl. destruct Hl as [es Hl].
  unfold os_walk in Hw. rewrite Hl in Hw.
  apply (walk_spec _ (well_formed_lookup _ _ _ Hwf Hl)) in Hw.
  destruct Hw as [rel [es' [-> [Hl' [-> ->]]]]].
  apply python_files_In in Hf. destruct Hf as [c [Hc [-> _]]].
  assert (lookup tree (source ++ rel) = Some (Dir es')) as Hl2
      by (now rewrite lookup_app, Hl).
  now apply (is_file_child tree (source ++ rel) es' c Hwf Hl2).
Qed.

(** Without recursion every candidate is the source joined with one
    name. *)
Lemma flat_candidates_shape tree source candidates :
  is_dir tree source = true ->
  expand_paths tree source false = Ok candidates ->
  forall p, In p candidates -> p = joinpath source (name p).
Proof.
  intros Hdir E p Hp.
  pose proof Hdir as Hl. apply is_dir_lookup in Hl. destruct Hl as [es Hl].
  unfold expand_paths in E. rewrite Hdir in E. simpl in E.
  rewrite (os_walk_first _ _ _ Hl) in E. simpl in E. inversion E; subst.
  rewrite app_nil_r in Hp.
  apply (python_files_In source (dirnames es) (filenames es)) in Hp.
  destruct Hp as [c [_ [-> _]]]. now rewrite name_joinpath.
Qed.

Section DirectoryMore.

Context {R : Runtime}.

(** X7.  The files of a run are written one after the other and a
    failure takes nothing back: with a directory at the output path of
    a candidate, the run ends with the error of that write, and the
    outputs of the candidates before it in sorted order stay written
    (as does the created destination); those after it are not
    written. *)
Theorem directory_run_keeps_partial_output
    fs0 out from_ to recursive candidates before p after :
  is_dir fs0 from_ = true ->
  expand_paths fs0 from_ recursive = Ok candidates ->
  (forall q, In q candidates -> loadable q = true) ->
  creatable fs0 to = true ->
  filter contributes (sorted candidates) = before ++ p :: after ->
  (forall q, In q before -> is_dir fs0 (target to (name q)) = false) ->
  is_dir fs0 (target to (name p)) = true ->
  exists fs1,
    generate_yaml from_ (Some to) recursive (World fs0 out) =
    (Raise IsADirectoryError, World fs1 out) /\
    forall q,
      stat fs1 q =
      match written to (map entry_of before) q with
      | Some text => Some (IsFile text)
      | None => if is_prefix q to then Some IsDir else stat fs0 q
      end.
Proof.
  intros Hdir He Hload Hto Hsplit Hbefore Hp.
  assert (collect (sorted candidates) [] = Ok (entries_of (sorted candidates))) as Hc.
  { rewrite collect_ok; [reflexivity|]. intros q Hq. apply Hload.
    now apply (proj1 (sorted_In _ _)). }
  assert (forall q, In q (before ++ p :: after) -> suffix q = ".py") as Hpy.
  { intros q Hq. rewrite <- Hsplit in Hq. apply filter_In in Hq.
    destruct Hq as [Hq _]. apply (proj1 (sorted_In _ _)) in Hq.
    exact (expand_paths_suffix _ _ _ _ Hdir He q Hq). }
  pose proof (proj1 (creatable_spec fs0 to) Hto) as Hfiles.
  destruct (proj1 (makedirs_ok fs0 to) Hto) as [fs' Hm].
  pose proof (stat_makedirs _ _ _ Hm) as Hs.
  destruct (write_outputs_spec to out (map entry_of before) fs')
    as [fs1 [Hrun Hstat]].
  { unfold is_dir. now rewrite Hs, is_prefix_refl. }
  { intros nm text Hin. apply in_map_iff in Hin. destruct Hin as [q [E Hq]].
    inversion E; subst. split.
    - apply suffix_py_name, Hpy. apply in_or_app. now left.
    - unfold is_dir. rewrite Hs. unfold target at 1. rewrite is_prefix_joinpath.
      exact (Hbefore q Hq). }
  assert (is_dir fs1 (target to (name p)) = true) as Hp1.
  { unfold is_dir. rewrite Hstat.
    destruct (written to (map entry_of before) (target to (name p))) as [text|] eqn:Ew.
    - exfalso. apply written_Some in Ew. destruct Ew as [nm [Hin Et]].
      apply in_map_iff in Hin. destruct Hin as [q [E Hq]]. inversion E; subst.
      rewrite Et in Hp. rewrite (Hbefore q Hq) in Hp. discriminate.
    - rewrite Hs. unfold target at 1. rewrite is_prefix_joinpath. exact Hp. }
  exists fs1. split.
  - rewrite (generate_yaml_route _ _ _ _ _ _ _ He Hc), Hdir, exists_not_dir_is_file.
    rewrite (Hfiles to (is_prefix_refl to)).
    unfold bind at 1, os_makedirs. cbn [fs stdout]. rewrite Hm.
    unfold entries_of. rewrite Hsplit, map_app. cbn [map].
    rewrite write_outputs_app, Hrun. cbn [write_outputs].
    unfold bind, lift, path_write_text, entry_of at 1.
    rewrite with_suffix_joinpath
      by (apply suffix_py_name, Hpy, in_elt).
    cbn [fs]. fold (target to (name p)).
    now rewrite (write_text_to_directory fs1 (target to (name p)) _ Hp1).
  - intro q. now rewrite Hstat, Hs.
Qed.

(** X8.  A run that writes below a destination directory changes no
    regular file with the suffix [.py]; on a well-formed tree that
    covers all its candidates: the sources are never overwritten. *)
Theorem sources_left_alone fs0 out from_ to recursive candidates :
  is_dir fs0 from_ = true ->
  expand_paths fs0 from_ recursive = Ok candidates ->
  (forall p, In p candidates -> loadable p = true) ->
  creatable fs0 to = true ->
  (forall p, In p candidates -> contributes p = true ->
     is_dir fs0 (target to (name p)) = false) ->
  exists fs1,
    generate_yaml from_ (Some to) recursive (World fs0 out) = (Ok tt, World fs1 out) /\
    (forall q, is_file fs0 q = true -> suffix q = ".py" -> stat fs1 q = stat fs0 q) /\
    (well_formed fs0 = true ->
     forall p, In p candidates -> stat fs1 p = stat fs0 p).
Proof.
  intros Hdir He Hload Hto Htargets.
  destruct (generate_yaml_to_directory fs0 out from_ to recursive candidates
              Hdir He Hload Hto Htargets) as [fs1 [Hrun Hstat]].
  pose proof (proj1 (creatable_spec fs0 to) Hto) as Hfiles.
  assert (forall q, is_file fs0 q = true -> suffix q = ".py" ->
                    stat fs1 q = stat fs0 q) as Hkept.
  { intros q Hq Hs. rewrite Hstat, written_none.
    - destruct (is_prefix q to) eqn:Hpre; [|reflexivity].
      rewrite (Hfiles q Hpre) in Hq. discriminate.
    - intros nm text _ E. unfold suffix in Hs.
      assert (name_suffix (name q) <> "") as Hne by (rewrite Hs; discriminate).
      pose proof (name_stem_suffix (name q) Hne) as Hname.
      rewrite Hs in Hname. rewrite E in Hname at 1.
      unfold target in Hname. rewrite name_joinpath in Hname.
      symmetry in Hname. exact (py_is_not_yaml _ _ Hname). }
  exists fs1. split; [exact Hrun|]. split; [exact Hkept|].
  intros Hwf p Hp. apply Hkept.
  - exact (candidates_are_files _ _ _ _ Hwf Hdir He p Hp).
  - exact (expand_paths_suffix _ _ _ _ Hdir He p Hp).
Qed.

(** X9.  Without recursion no two candidates share an output path:
    after the run every candidate that defines a workflow finds its own
    document at the destination joined with its name, [.yaml] in place
    of [.py]. *)
Theorem flat_outputs_do_not_collide fs0 out from_ to candidates :
  is_dir fs0 from_ = true ->
  expand_paths fs0 from_ false = Ok candidates ->
  (forall p, In p candidates -> loadable p = true) ->
  creatable fs0 to = true ->
  (forall p, In p candidates -> contributes p = true ->
     is_dir fs0 (target to (name p)) = false) ->
  exists fs1,
    generate_yaml from_ (Some to) false (World fs0 out) = (Ok tt, World fs1 out) /\
    forall p,
      In p candidates -> contributes p = true ->
      with_suffix (joinpath to (name p)) ".yaml" = Ok (target to (name p)) /\
      stat fs1 (target to (name p)) = Some (IsFile (serialized p)).
Proof.
  intros Hdir He Hload Hto Htargets.
  destruct (generate_yaml_to_directory fs0 out from_ to false candidates
              Hdir He Hload Hto Htargets) as [fs1 [Hrun Hstat]].
  exists fs1. split; [exact Hrun|]. intros p Hp Hcp. split.
  - apply with_suffix_joinpath, suffix_py_name.
    exact (expand_paths_suffix _ _ _ _ Hdir He p Hp).
  - rewrite Hstat, (written_agree to _ (name p) (serialized p)); [reflexivity| |].
    + apply entries_of_In. exists p. repeat split; try assumption.
      now apply sorted_In.
    + intros nm' text' Hin Et. apply entries_of_In in Hin.
      destruct Hin as [q [Hq [_ [-> ->]]]]. apply (proj1 (sorted_In _ _)) in Hq.
      assert (name q = name p) as Hn.
      { revert Et. apply target_inj.
        - exact (expand_paths_suffix _ _ _ _ Hdir He q Hq).
        - exact (expand_paths_suffix _ _ _ _ Hdir He p Hp). }
      rewrite (flat_candidates_shape _ _ _ Hdir He q Hq), Hn.
      now rewrite <- (flat_candidates_shape _ _ _ Hdir He p Hp).
Qed.

End DirectoryMore.

(** ** The order of the candidates *)

(** A list has one sorted arrangement. *)
Lemma StronglySorted_unique l1 : forall l2,
  StronglySorted (fun p q => path_leb p q = true) l1 ->
  StronglySorted (fun p q => path_leb p q = true) l2 ->
  Permutation l1 l2 ->
  l1 = l2.
Proof.
  induction l1 as [|a l1 IH]; intros l2 H1 H2 Hperm.
  - now apply Permutation_nil in Hperm.
  - destruct l2 as [|b l2].
    + apply Permutation_sym, Permutation_nil in Hperm. discriminate.
    + inversion H1 as [|? ? Hs1 Ha]; subst. inversion H2 as [|? ? Hs2 Hb]; subst.
      rewrite Forall_forall in Ha, Hb.
      assert (a = b) as ->.
      { assert (In a (b :: l2)) as Hin1
            by (eapply Permutation_in; [exact Hperm | now left]).
        assert (In b (a :: l1)) as Hin2
            by (eapply Permutation_in; [apply Permutation_sym; exact Hperm | now left]).
        destruct Hin1 as [-> | Hin1]; [reflexivity|].
        destruct Hin2 as [-> | Hin2]; [reflexivity|].
        apply path_leb_antisym; auto. }
      f_equal. apply IH; try assumption.
      now apply Permutation_cons_inv in Hperm.
Qed.

(** X10.  The order in which the directory lists its files does not
    show in the result: candidate lists that are rearrangements of one
    another are sorted into the same list, so the run loads, prints and
    writes them in the same order. *)
Theorem sorted_ignores_listing_order l1 l2 :
  Permutation l1 l2 ->
  sorted l1 = sorted l2 /\ sorted (sorted l1) = sorted l1.
Proof.
  intro Hperm.
  assert (forall a b, Permutation a b -> sorted a = sorted b) as Hsame.
  { intros a b Hab. apply StronglySorted_unique; try apply sorted_StronglySorted.
    unfold sorted.
    eapply Permutation_trans; [apply Permutation_sym, PathSort.Permuted_sort|].
    eapply Permutation_trans; [exact Hab | apply PathSort.Permuted_sort]. }
  split; [now apply Hsame|].
  apply Hsame. unfold sorted. apply Permutation_sym, PathSort.Permuted_sort.
Qed.

(** ** More about [expand_paths] *)

Lemma expand_paths_of_walk tree source es :
  is_dir tree source = true ->
  lookup tree source = Some (Dir es) ->
  expand_paths tree source false =
  Ok (python_files (source, dirnames es, filenames es)) /\
  expand_paths tree source true =
  Ok (flat_map python_files (walk source (Dir es))).
Proof.
  intros Hdir Hl. unfold expand_paths. rewrite Hdir. cbn [negb rbind].
  rewrite (os_walk_first _ _ _ Hl). cbn [rbind flat_map]. rewrite app_nil_r.
  split; [reflexivity|]. unfold os_walk. rewrite Hl. reflexivity.
Qed.

Lemma walk_paths_shape n : forall top p,
  In p (flat_map python_files (walk top n)) ->
  exists rel c, p = top ++ rel ++ [c].
Proof.
  induction n as [s|es IH] using node_ind'; intros top p Hp; [contradiction|].
  rewrite Forall_forall in IH. cbn [walk flat_map] in Hp.
  apply in_app_or in Hp. destruct Hp as [Hp | Hp].
  - apply python_files_In in Hp. destruct Hp as [c [_ [-> _]]].
    exists [], c. reflexivity.
  - apply in_flat_map in Hp. destruct Hp as [triple [Ht Hp]].
    apply in_flat_map in Ht. destruct Ht as [e [He Ht]].
    assert (In p (flat_map python_files (walk (joinpath top (fst e)) (snd e)))) as Hin
        by (apply in_flat_map; eauto).
    destruct (IH e He _ _ Hin) as [rel [c ->]].
    exists (fst e :: rel), c. unfold joinpath. now rewrite <- app_assoc.
Qed.

Lemma NoDup_flat_map_children {A} (h : string * A -> list path) top es :
  NoDup (map fst es) ->
  (forall e, In e es -> NoDup (h e)) ->
  (forall e p, In e es -> In p (h e) -> exists r, p = top ++ fst e :: r) ->
  NoDup (flat_map h es).
Proof.
  induction es as [|e es IH]; intros Hnd Hall Hshape; simpl; [constructor|].
  inversion Hnd as [|? ? Hne Hnd']; subst.
  apply NoDup_app.
  - apply Hall. now left.
  - apply IH; auto.
    + intros e' He'. apply Hall. now right.
    + intros e' p He' Hp. apply (Hshape e' p); [now right | assumption].
  - intros p Hp Hp'. apply in_flat_map in Hp'. destruct Hp' as [e' [He' Hp']].
    destruct (Hshape e p (or_introl eq_refl) Hp) as [r Hr].
    destruct (Hshape e' p (or_intror He') Hp') as [r' Hr'].
    rewrite Hr in Hr'. apply app_inv_head in Hr'. injection Hr' as Hfst _.
    apply Hne. rewrite Hfst. now apply in_map.
Qed.

Lemma flat_map_flat_map {A B C} (f : A -> list B) (g : B -> list C) l :
  flat_map g (flat_map f l) = flat_map (fun x => flat_map g (f x)) l.
Proof.
  induction l as [|x l IH]; simpl; [reflexivity|].
  now rewrite flat_map_app, IH.
Qed.

Lemma walk_paths_NoDup n :
  well_formed n = true ->
  forall top, NoDup (flat_map python_files (walk top n)).
Proof.
  induction n as [s|es IH] using node_ind'; intros Hwf top; [constructor|].
  apply well_formed_Dir in Hwf. destruct Hwf as [Hnd Hall].
  rewrite Forall_forall in IH. cbn [walk flat_map].
  apply NoDup_app.
  - unfold python_files.
    apply NoDup_filter, NoDup_map_joinpath, filenames_NoDup, Hnd.
  - rewrite flat_map_flat_map.
    apply (NoDup_flat_map_children _ top); [assumption| |].
    + intros [c child] Hin. apply (IH (c, child) Hin). exact (Hall c child Hin).
    + intros e p _ Hp. apply walk_paths_shape in Hp.
      destruct Hp as [rel [c ->]]. exists (rel ++ [c]).
      unfold joinpath. now rewrite <- app_assoc.
  - intros p Hp Hp'. apply python_files_In in Hp. destruct Hp as [c [_ [-> _]]].
    rewrite flat_map_flat_map in Hp'. apply in_flat_map in Hp'.
    destruct Hp' as [e [_ Hp']]. apply walk_paths_shape in Hp'.
    destruct Hp' as [rel [c' E]]. unfold joinpath in E.
    rewrite <- app_assoc in E. apply app_inv_head in E. simpl in E.
    injection E as _ E'. destruct rel; discriminate.
Qed.

(** X12.  On a well-formed tree no path is yielded twice, with or
    without recursion, for a directory or a single file: every file is
    loaded once. *)
Theorem expand_paths_yields_once tree source recursive paths :
  well_formed tree = true ->
  expand_paths tree source recursive = Ok paths ->
  NoDup paths.
Proof.
  intros Hwf E. destruct (is_dir tree source) eqn:Hdir.
  - pose proof Hdir as Hl. apply is_dir_lookup in Hl. destruct Hl as [es Hl].
    pose proof (walk_paths_NoDup _ (well_formed_lookup _ _ _ Hwf Hl) source) as Hnd.
    destruct (expand_paths_of_walk tree source es Hdir Hl) as [Hflat Hdeep].
    destruct recursive.
    + rewrite Hdeep in E. inversion E; subst. exact Hnd.
    + rewrite Hflat in E. inversion E; subst.
      cbn [walk flat_map] in Hnd. now apply NoDup_app_remove_r in Hnd.
  - rewrite (expand_paths_not_dir _ _ _ Hdir) in E. inversion E; subst.
    constructor; [intros [] | constructor].
Qed.

(** ** A single file that is no module *)

Section NoModule.

Context {R : Runtime}.

(** X13.  A single file is a candidate whatever its suffix, but it has
    to be a module: when [importlib] gives no spec for it, or a spec
    without a loader, loading fails the assertion and so does the run,
    with or without a destination; nothing is written or printed. *)
Theorem single_file_without_spec_fails fs0 out from_ to recursive :
  is_dir fs0 from_ = false ->
  spec_from_file_location (stem from_) from_ = None \/
  (exists spec,
     spec_from_file_location (stem from_) from_ = Some spec /\
     spec_loader spec = None) ->
  load_workflows_from_module from_ = Raise AssertionError /\
  generate_yaml from_ to recursive (World fs0 out) =
  (Raise AssertionError, World fs0 out).
Proof.
  intros Hdir Hspec.
  assert (load_workflows_from_module from_ = Raise AssertionError) as Hload.
  { unfold load_workflows_from_module.
    destruct Hspec as [-> | [spec [-> ->]]]; reflexivity. }
  split; [exact Hload|].
  apply (generate_yaml_load_error _ _ _ _ _ [from_]).
  - now apply expand_paths_not_dir.
  - rewrite sorted_singleton, collect_cons, Hload. reflexivity.
Qed.

End NoModule.

(** ** The command on the two installations, again *)

Module MoreRuns.

Ltac each_path :=
  let q := fresh "q" in
  let Hq := fresh "Hq" in
  intros q Hq; simpl in Hq;
  repeat (destruct Hq as [<- | Hq]); try contradiction.

Example jobs_listed :
  expand_paths Workshop.tree ["jobs"] false = Ok Workshop.jobs_candidates.
Proof. reflexivity. Qed.

Example etl_listed :
  expand_paths Workshop.tree ["etl"] false = Ok Workshop.etl_candidates.
Proof. reflexivity. Qed.

(** [jobs/a.py] loads, [jobs/b.py] raises, [jobs/c.py] is not reached. *)
Lemma jobs_aborted :
  sorted Workshop.jobs_candidates =
  [["jobs"; "a.py"]] ++ ["jobs"; "b.py"] :: [["jobs"; "c.py"]] /\
  load_workflows_from_module (R := Workshop.runtime) ["jobs"; "b.py"] =
  Raise (Exception "boom") /\
  generate_yaml (R := Workshop.runtime) ["jobs"] (Some ["site"]) false Workshop.start =
  (Raise (Exception "boom"), Workshop.start) /\
  generate_yaml (R := Workshop.runtime) ["jobs"] None false Workshop.start =
  (Raise (Exception "boom"), Workshop.start).
Proof.
  split; [reflexivity|]. split; [reflexivity|].
  split;
    apply (load_error_aborts_run (R := Workshop.runtime) Workshop.tree "" ["jobs"] _ false
             Workshop.jobs_candidates [["jobs"; "a.py"]] ["jobs"; "b.py"]
             [["jobs"; "c.py"]]);
    try reflexivity; each_path; reflexivity.
Defined.

Lemma drafts_print_nothing :
  expand_paths Demo.tree ["drafts"] false = Ok [["drafts"; "todo.py"]] /\
  filter (contributes (R := Demo.runtime)) (sorted [["drafts"; "todo.py"]]) = [] /\
  generate_yaml (R := Demo.runtime) ["drafts"] None false Demo.start =
  (Ok tt, Demo.start).
Proof.
  split; [reflexivity|]. split; [reflexivity|].
  destruct (stdout_without_separator (R := Demo.runtime) Demo.tree "" ["drafts"] false
              [["drafts"; "todo.py"]] eq_refl) as [H _].
  - each_path. reflexivity.
  - apply H. reflexivity.
Defined.

Lemma etl_below_report :
  is_dir Workshop.tree ["etl"] = true /\
  is_file Workshop.tree ["report.txt"] = true /\
  is_file Workshop.tree ["report.txt"; "yaml"] = false /\
  creatable Workshop.tree ["report.txt"; "yaml"] = false /\
  generate_yaml (R := Workshop.runtime) ["etl"] (Some ["report.txt"; "yaml"]) false
    Workshop.start =
  (Raise NotADirectoryError, Workshop.start).
Proof.
  split; [reflexivity|]. split; [reflexivity|]. split; [reflexivity|].
  split; [reflexivity|].
  assert (forall p, In p Workshop.etl_candidates ->
                    loadable (R := Workshop.runtime) p = true) as Hload
      by (each_path; reflexivity).
  exact (proj2 (destination_below_file_fails (R := Workshop.runtime) Workshop.tree ""
                  ["etl"] ["report.txt"; "yaml"] false Workshop.etl_candidates
                  eq_refl eq_refl Hload eq_refl eq_refl)).
Defined.

Lemma solo_to_dist :
  is_dir Demo.tree ["solo.py"] = false /\
  is_dir Demo.tree ["dist"] = true /\
  is_dir Demo.tree ["build"] = false /\
  (exists fs1,
     generate_yaml (R := Demo.runtime) ["solo.py"] (Some ["dist"; "solo.yaml"]) false
       Demo.start = (Ok tt, World fs1 "")) /\
  ~ (exists fs1,
       generate_yaml (R := Demo.runtime) ["solo.py"] (Some ["build"; "solo.yaml"]) false
         Demo.start = (Ok tt, World fs1 "")).
Proof.
  split; [reflexivity|]. split; [reflexivity|]. split; [reflexivity|]. split.
  - apply (single_file_destination (R := Demo.runtime) Demo.tree "" ["solo.py"] ["dist"]
             "solo.yaml" false "X" ["Y"] eq_refl eq_refl).
    split; reflexivity.
  - intro H.
    apply (single_file_destination (R := Demo.runtime) Demo.tree "" ["solo.py"] ["build"]
             "solo.yaml" false "X" ["Y"] eq_refl eq_refl) in H.
    destruct H as [H _]. discriminate H.
Defined.

(** [site/a.yaml] is written, [site/b.yaml] is a directory and stops
    the run, [site/c.yaml] is not written. *)
Lemma etl_stops_at_b :
  is_dir Workshop.tree ["site"; "b.yaml"] = true /\
  exists fs1,
    generate_yaml (R := Workshop.runtime) ["etl"] (Some ["site"]) false Workshop.start =
    (Raise IsADirectoryError, World fs1 "") /\
    stat fs1 ["site"; "a.yaml"] = Some (IsFile "A") /\
    stat fs1 ["site"; "c.yaml"] = None.
Proof.
  split; [reflexivity|].
  destruct (directory_run_keeps_partial_output (R := Workshop.runtime) Workshop.tree ""
              ["etl"] ["site"] false Workshop.etl_candidates
              [["etl"; "a.py"]] ["etl"; "b.py"] [["etl"; "c.py"]])
    as [fs1 [Hrun Hstat]]; try reflexivity.
  - each_path; reflexivity.
  - each_path. reflexivity.
  - exists fs1. split; [exact Hrun|]. split.
    + rewrite Hstat. reflexivity.
    + rewrite Hstat. reflexivity.
Defined.

Lemma wf_sources_kept :
  well_formed Demo.tree = true /\
  exists fs1,
    generate_yaml (R := Demo.runtime) ["wf"] (Some ["wf"]) true Demo.start =
    (Ok tt, World fs1 "") /\
    stat fs1 ["wf"; "a.py"] = Some (IsFile "import hera") /\
    stat fs1 ["wf"; "nightly"; "a.py"] = Some (IsFile "import hera").
Proof.
  split; [reflexivity|].
  destruct (sources_left_alone (R := Demo.runtime) Demo.tree "" ["wf"] ["wf"] true
              Demo.deep_candidates) as [fs1 [Hrun [_ Hkept]]]; try reflexivity.
  - each_path; reflexivity.
  - each_path; intros _; reflexivity.
  - exists fs1. split; [exact Hrun|]. split.
    + rewrite (Hkept eq_refl ["wf"; "a.py"]); [reflexivity | simpl; auto].
    + rewrite (Hkept eq_refl ["wf"; "nightly"; "a.py"]); [reflexivity | simpl; auto 6].
Defined.

Lemma wf_outputs_apart :
  exists fs1,
    generate_yaml (R := Demo.runtime) ["wf"] (Some ["out"]) false Demo.start =
    (Ok tt, World fs1 "") /\
    stat fs1 ["out"; "a.yaml"] = Some (IsFile "A") /\
    stat fs1 ["out"; "c.yaml"] = Some (IsFile "C").
Proof.
  destruct (flat_outputs_do_not_collide (R := Demo.runtime) Demo.tree "" ["wf"] ["out"]
              Demo.flat_candidates) as [fs1 [Hrun Hown]]; try reflexivity.
  - each_path; reflexivity.
  - exists fs1. split; [exact Hrun|]. split.
    + apply (Hown ["wf"; "a.py"]); [simpl; auto | reflexivity].
    + apply (Hown ["wf"; "c.py"]); [simpl; auto | reflexivity].
Defined.

Lemma etl_sorted_either_way :
  sorted Workshop.etl_candidates = sorted (rev Workshop.etl_candidates) /\
  sorted Workshop.etl_candidates =
  [["etl"; "a.py"]; ["etl"; "b.py"]; ["etl"; "c.py"]].
Proof.
  split; [|reflexivity].
  apply (sorted_ignores_listing_order Workshop.etl_candidates
           (rev Workshop.etl_candidates)).
  apply Permutation_rev.
Defined.

Lemma wf_yielded_once :
  well_formed Demo.tree = true /\
  expand_paths Demo.tree ["wf"] true = Ok Demo.deep_candidates /\
  NoDup Demo.deep_candidates.
Proof.
  split; [reflexivity|]. split; [reflexivity|].
  apply (expand_paths_yields_once Demo.tree ["wf"] true); reflexivity.
Defined.

Lemma notes_txt_not_a_module :
  is_dir Demo.tree ["notes.txt"] = false /\
  spec_from_file_location (Runtime := Demo.runtime) (stem ["notes.txt"]) ["notes.txt"] =
  None /\
  generate_yaml (R := Demo.runtime) ["notes.txt"] None false Demo.start =
  (Raise AssertionError, Demo.start) /\
  generate_yaml (R := Demo.runtime) ["notes.txt"] (Some ["notes.yaml"]) false Demo.start =
  (Raise AssertionError, Demo.start).
Proof.
  split; [reflexivity|]. split; [reflexivity|].
  split;
    apply (single_file_without_spec_fails (R := Demo.runtime) Demo.tree "" ["notes.txt"]);
    try reflexivity; left; reflexivity.
Defined.

End MoreRuns.
